(** * Delta Migration API: the background sync job and its progress tracking

    A shallow embedding of [main.py]: the shared [sync_state] dictionary, the
    job body [run_sync_background], the start operation [sync_folders], and
    the pure pieces the job body is made of (line classification, progress
    percentage, exit-code classification, transferred-count extraction).

    Conventions of the embedding.
    - A Python [str] is a [list ascii]; a character stands for a code point
      in the range 0..255.  [lit "..."] writes a literal.
    - A Python [int] is a [Z]; a Python [float] is a binary64 [spec_float]
      of the standard library ([prec = 53], [emax = 1024]).
    - Calls into the operating system (file system, clock, child process)
      are answered by a [world] record; a call that may raise answers with a
      [result].
    - Every [with sync_lock:] block is one atomic node of the job tree. *)

From Stdlib Require Import ZArith List Bool Ascii String Lia.
From Stdlib Require Import Numbers.DecimalString.
From Stdlib Require Import Floats.SpecFloat.
Import ListNotations.

Local Open Scope Z_scope.

(** ** Python strings *)

Module PyStr.

Definition str : Type := list ascii.

Definition lit (s : string) : str := list_ascii_of_string s.

Definition ord (c : ascii) : N := N_of_ascii c.

(** [str.isspace] on one character, for code points below 256: the
    characters [str.strip()] removes when called without argument. *)
Definition isspace (c : ascii) : bool :=
  let n := ord c in
  ((9 <=? n) && (n <=? 13) || (28 <=? n) && (n <=? 32)
   || (n =? 133) || (n =? 160))%N.

Fixpoint lstrip (s : str) : str :=
  match s with
  | [] => []
  | c :: s' => if isspace c then lstrip s' else s
  end.

Definition rstrip (s : str) : str := rev (lstrip (rev s)).

(** [s.strip()] *)
Definition strip (s : str) : str := rstrip (lstrip s).

(** [s.startswith(p)] *)
Fixpoint startswith (p s : str) : bool :=
  match p, s with
  | [], _ => true
  | _ :: _, [] => false
  | a :: p', b :: s' => Ascii.eqb a b && startswith p' s'
  end.

(** [s.endswith(p)] *)
Definition endswith (p s : str) : bool := startswith (rev p) (rev s).

(** [p in s] *)
Fixpoint contains (p s : str) : bool :=
  startswith p s ||
  match s with
  | [] => false
  | _ :: s' => contains p s'
  end.

(** [s.lower()], one character at a time: the ASCII capitals and the
    Latin-1 capitals (all of 192..222 but the multiplication sign 215). *)
Definition lower_char (c : ascii) : ascii :=
  let n := ord c in
  if ((65 <=? n) && (n <=? 90)
      || (192 <=? n) && (n <=? 222) && negb (n =? 215))%N
  then ascii_of_N (n + 32) else c.

Definition lower (s : str) : str := map lower_char s.

(** [s.split(sep)] for a one-character separator: never empty, one more
    field than there are separators. *)
Fixpoint split (sep : ascii) (s : str) : list str :=
  match s with
  | [] => [[]]
  | c :: s' =>
      if Ascii.eqb c sep then [] :: split sep s'
      else match split sep s' with
           | [] => [[c]]
           | f :: fs => (c :: f) :: fs
           end
  end.

(** [s[:n]] for [n >= 0] *)
Definition slice_to (n : nat) (s : str) : str := firstn n s.

(** [bool(s)]: a string is truthy when it is not empty. *)
Definition truthy (s : str) : bool :=
  match s with [] => false | _ :: _ => true end.

(** [str(n)] for an [int] *)
Definition str_of_int (n : Z) : str :=
  list_ascii_of_string (NilEmpty.string_of_int (Z.to_int n)).

End PyStr.
Import PyStr.

(** ** Exceptions and results

    Every exception the job body can meet is an instance of [Exception];
    the class matters where the source selects on it. *)

Inductive exn_class : Type :=
| PermissionError
| ValueError
| OverflowError
| ZeroDivisionError
| HTTPException (status_code : Z)
| OtherException.

Record exn : Type := mkExn { exn_cls : exn_class; exn_text : str }.

(** [raise Exception(msg)] *)
Definition Exception (msg : str) : exn := mkExn OtherException msg.

Definition is_PermissionError (e : exn) : bool :=
  match exn_cls e with PermissionError => true | _ => false end.

Inductive result (A : Type) : Type :=
| Ok (a : A)
| Err (e : exn).
Arguments Ok {A} a.
Arguments Err {A} e.

(** ** Python numbers *)

Module PyNum.

(** *** [int(s)] on a string, base 10 *)

Definition is_digit (c : ascii) : bool :=
  ((48 <=? ord c) && (ord c <=? 57))%N.

Definition digit_val (c : ascii) : Z := Z.of_N (ord c - 48).

Definition is_underscore (c : ascii) : bool := (ord c =? 95)%N.

(** White space as [int()] skips it around the number. *)
Definition int_space (c : ascii) : bool :=
  let n := ord c in
  ((9 <=? n) && (n <=? 13) || (n =? 32) || (n =? 133) || (n =? 160))%N.

(** Default of [sys.int_max_str_digits]: more digits are a [ValueError]. *)
Definition int_max_str_digits : nat := 4300.

(** Digits, with single underscores allowed between two digits.  Returns
    the value, the number of digits and the unread rest; [None] is the
    [ValueError] of a doubled or trailing underscore. *)
Fixpoint scan_digits (prev_us : bool) (acc : Z) (n : nat) (s : str)
  : option (Z * nat * str) :=
  match s with
  | [] => if prev_us then None else Some (acc, n, [])
  | c :: s' =>
      if is_digit c then scan_digits false (10 * acc + digit_val c) (S n) s'
      else if is_underscore c then
             if prev_us then None else scan_digits true acc n s'
      else if prev_us then None else Some (acc, n, s)
  end.

Definition skip_int_space (s : str) : str :=
  (fix go (s : str) : str :=
     match s with
     | c :: s' => if int_space c then go s' else s
     | [] => []
     end) s.

Definition take_sign (s : str) : bool * str :=
  match s with
  | c :: s' =>
      if (ord c =? 43)%N then (false, s')
      else if (ord c =? 45)%N then (true, s')
      else (false, s)
  | [] => (false, [])
  end.

(** [int(s)]: [None] stands for [ValueError]. *)
Definition int_of_str (s : str) : option Z :=
  let '(neg, s1) := take_sign (skip_int_space s) in
  match s1 with
  | c :: _ =>
      if is_underscore c then None
      else
        match scan_digits false 0 0 s1 with
        | Some (v, n, rest) =>
            if (n =? 0)%nat then None
            else if (int_max_str_digits <? n)%nat then None
            else match skip_int_space rest with
                 | [] => Some (if neg then - v else v)
                 | _ :: _ => None
                 end
        | None => None
        end
  | [] => None
  end.

(** *** Floats: binary64 *)

Definition prec : Z := 53.
Definition emax : Z := 1024.

(** The float of a non-zero integer literal. *)
Definition float_of_pos (p : positive) : spec_float :=
  binary_round prec emax false p 0.

(** [a / b] on two [int]s: the correctly rounded quotient. *)
Definition int_true_div (a b : Z) : result spec_float :=
  match b with
  | Z0 => Err (mkExn ZeroDivisionError (lit "division by zero"))
  | _ =>
      match a with
      | Z0 => Ok (S754_zero (b <? 0))
      | _ =>
          match SFdiv prec emax
                  (S754_finite (a <? 0) (Z.to_pos (Z.abs a)) 0)
                  (S754_finite (b <? 0) (Z.to_pos (Z.abs b)) 0) with
          | S754_infinity _ =>
              Err (mkExn OverflowError
                     (lit "integer division result too large for a float"))
          | q => Ok q
          end
      end
  end.

(** [x * n] for a float [x] and a positive [int] literal [n] *)
Definition float_mul_pos (x : spec_float) (n : positive) : spec_float :=
  SFmul prec emax x (float_of_pos n).

(** Nearest integer to [m * 2^e], ties to the even one. *)
Definition round_half_even (m : positive) (e : Z) : Z :=
  match e with
  | Zneg k =>
      let d := 2 ^ Zpos k in
      let q := Zpos m / d in
      let r := Zpos m mod d in
      match 2 * r ?= d with
      | Lt => q
      | Gt => q + 1
      | Eq => if Z.even q then q else q + 1
      end
  | _ => Zpos m * 2 ^ e
  end.

(** [round(x)] with one argument: an [int], or an exception on a float
    that is no number. *)
Definition py_round (x : spec_float) : result Z :=
  match x with
  | S754_zero _ => Ok 0
  | S754_finite s m e => Ok (cond_Zopp s (round_half_even m e))
  | S754_infinity _ =>
      Err (mkExn OverflowError (lit "cannot convert float infinity to integer"))
  | S754_nan =>
      Err (mkExn ValueError (lit "cannot convert float NaN to integer"))
  end.

Inductive number : Type :=
| NInt (n : Z)
| NFloat (x : spec_float).

End PyNum.
Import PyNum.

(** ** The shared job state: the [sync_state] dictionary *)

(** The dictionary stored under ["progress"]. *)
Record progress_t : Type := mkProgress {
  p_status : str;
  started_at : str;
  current_file : option str;
  files_completed : Z;
  total_files : Z;
  percentage : Z
}.

(** The dictionary stored under ["last_sync"]. *)
Record last_sync_t : Type := mkLastSync {
  status : str;
  message : str;
  timestamp : str;
  files_transferred : Z;
  warnings : option (list str)
}.

Record sync_state_t : Type := mkState {
  is_running : bool;
  progress : option progress_t;
  last_sync : option last_sync_t
}.

(** The module-level initial value. *)
Definition sync_state : sync_state_t :=
  {| is_running := false; progress := None; last_sync := None |}.

Definition set_current_file (v : option str) (p : progress_t) : progress_t :=
  mkProgress (p_status p) (started_at p) v (files_completed p)
             (total_files p) (percentage p).

Definition set_files_completed (v : Z) (p : progress_t) : progress_t :=
  mkProgress (p_status p) (started_at p) (current_file p) v
             (total_files p) (percentage p).

Definition set_percentage (v : Z) (p : progress_t) : progress_t :=
  mkProgress (p_status p) (started_at p) (current_file p) (files_completed p)
             (total_files p) v.

Definition set_progress (v : option progress_t) (s : sync_state_t)
  : sync_state_t :=
  mkState (is_running s) v (last_sync s).

(** ** Job trees

    A piece of code that touches the shared state only inside
    [with sync_lock:] blocks.  [Atomic upd k] is one such block: it turns the
    state [s] it finds into [upd s] and the code goes on as [k s].  [Spawn]
    is [subprocess.Popen], [AddTask] is [background_tasks.add_task] of the
    job body. *)

Inductive job (A : Type) : Type :=
| Ret (a : A)
| Raise (e : exn)
| Atomic (upd : sync_state_t -> sync_state_t) (k : sync_state_t -> job A)
| Spawn (cmd : list str) (k : job A)
| AddTask (k : job A).
Arguments Ret {A} a.
Arguments Raise {A} e.
Arguments Atomic {A} upd k.
Arguments Spawn {A} cmd k.
Arguments AddTask {A} k.

Fixpoint bind {A B : Type} (m : job A) (f : A -> job B) : job B :=
  match m with
  | Ret a => f a
  | Raise e => Raise e
  | Atomic upd k => Atomic upd (fun s => bind (k s) f)
  | Spawn cmd k => Spawn cmd (bind k f)
  | AddTask k => AddTask (bind k f)
  end.

(** [try: m  except Exception as e: h e] *)
Fixpoint try_except {A : Type} (m : job A) (h : exn -> job A) : job A :=
  match m with
  | Ret a => Ret a
  | Raise e => h e
  | Atomic upd k => Atomic upd (fun s => try_except (k s) h)
  | Spawn cmd k => Spawn cmd (try_except k h)
  | AddTask k => AddTask (try_except k h)
  end.

(** A [with sync_lock:] block whose body may raise part-way: the mutations
    done before the exception stay, the lock is released, the exception
    goes on. *)
Definition locked (body : sync_state_t -> sync_state_t * option exn)
  : job unit :=
  Atomic (fun s => fst (body s))
         (fun s => match snd (body s) with
                   | Some e => Raise e
                   | None => Ret tt
                   end).

(** The answer of a call that may raise. *)
Definition call {A : Type} (r : result A) : job A :=
  match r with
  | Ok a => Ret a
  | Err e => Raise e
  end.

Notation "x <- m ;; k" := (bind m (fun x => k))
  (at level 61, m at next level, right associativity).
Notation "m ;; k" := (bind m (fun _ => k))
  (at level 61, right associativity).

(** *** Running a job alone *)

(** The state when the job is over. *)
Fixpoint final_state {A : Type} (j : job A) (s : sync_state_t)
  : sync_state_t :=
  match j with
  | Ret _ | Raise _ => s
  | Atomic upd k => final_state (k s) (upd s)
  | Spawn _ k | AddTask k => final_state k s
  end.

(** How the job ends: with a value, or with an exception that escapes. *)
Fixpoint outcome {A : Type} (j : job A) (s : sync_state_t) : result A :=
  match j with
  | Ret a => Ok a
  | Raise e => Err e
  | Atomic upd k => outcome (k s) (upd s)
  | Spawn _ k | AddTask k => outcome k s
  end.

(** The states the lock-protected blocks leave, in order. *)
Fixpoint states {A : Type} (j : job A) (s : sync_state_t)
  : list sync_state_t :=
  match j with
  | Ret _ | Raise _ => []
  | Atomic upd k => upd s :: states (k s) (upd s)
  | Spawn _ k | AddTask k => states k s
  end.

(** The child processes launched, in order. *)
Fixpoint spawned {A : Type} (j : job A) (s : sync_state_t) : list (list str) :=
  match j with
  | Ret _ | Raise _ => []
  | Atomic upd k => spawned (k s) (upd s)
  | Spawn cmd k => cmd :: spawned k s
  | AddTask k => spawned k s
  end.

(** The number of job bodies handed to the background tasks. *)
Fixpoint scheduled {A : Type} (j : job A) (s : sync_state_t) : nat :=
  match j with
  | Ret _ | Raise _ => O
  | Atomic upd k => scheduled (k s) (upd s)
  | Spawn _ k => scheduled k s
  | AddTask k => S (scheduled k s)
  end.

(** ** The pure pieces of the job body *)

(** The test of line 187 on a stripped line: the line names a finished
    item. *)
Definition qualifies (line_stripped : str) : bool :=
  truthy line_stripped
  && negb (startswith (lit " ") line_stripped)
  && negb (endswith (lit "/") line_stripped).

(** The same test on a line as the child process wrote it. *)
Definition is_item_line (line : str) : bool := qualifies (strip line).

(** [min(99, round((files_completed / total_files) * 100))] *)
Definition compute_percentage (files_completed total_files : Z) : result Z :=
  match int_true_div files_completed total_files with
  | Ok q =>
      match py_round (float_mul_pos q 100) with
      | Ok n => Ok (Z.min 99 n)
      | Err e => Err e
      end
  | Err e => Err e
  end.

(** Lines 204-225: status, message and the warnings list after the
    branch. *)
Definition classify_exit (result_returncode : Z) (stderr : str)
    (warnings : list str) : str * str * list str :=
  let stderr_lower := lower stderr in
  if result_returncode =? 0 then
    (lit "success", lit "Sync completed", warnings)
  else if existsb (Z.eqb result_returncode) [3] then
    (lit "failed", lit "Permission denied", warnings)
  else if result_returncode =? 11 then
    (lit "failed",
     if contains (lit "no space left") stderr_lower
     then lit "Disk full" else lit "Disk I/O error",
     warnings)
  else if result_returncode =? 23 then
    (lit "warning", lit "Partial transfer - some files failed",
     warnings ++ [lit "Some files had errors"])
  else if result_returncode =? 24 then
    (lit "warning", lit "Files vanished during sync",
     warnings ++ [lit "Some files were deleted during sync"])
  else
    (lit "failed",
     lit "Rsync failed with code " ++ str_of_int result_returncode,
     warnings).

Definition transferred_label : str :=
  lit "Number of regular files transferred:".

(** [int(line.split(':')[1].strip())]: [None] when the expression raises
    [IndexError] or [ValueError]. *)
Definition line_count (line : str) : option Z :=
  match nth_error (split ":" line) 1 with
  | Some field => int_of_str (strip field)
  | None => None
  end.

(** One turn of the loop of lines 230-235. *)
Definition scan_line (files_transferred : Z) (line : str) : Z :=
  if contains transferred_label line then
    match line_count line with
    | Some n => n
    | None => files_transferred
    end
  else files_transferred.

(** Lines 227-235 on [output = result_stdout + stderr]. *)
Definition extract_files_transferred (output : str) : Z :=
  fold_left scan_line (split "010" output) 0.

(** [count_source_files]: each element is the answer of [item.is_file()]
    for one item [rglob] yields; an [Err] is an exception raised while
    iterating, which ends the loop and is swallowed. *)
Fixpoint count_source_files_from (count : Z) (items : list (result bool)) : Z :=
  match items with
  | [] => count
  | Ok true :: rest => count_source_files_from (count + 1) rest
  | Ok false :: rest => count_source_files_from count rest
  | Err _ :: _ => count
  end.

Definition count_source_files (items : list (result bool)) : Z :=
  count_source_files_from 0 items.

(** ** The lock-protected blocks of the job body *)

(** Lines 120-129. *)
Definition start_block (total : Z) (now : str) (s : sync_state_t)
  : sync_state_t :=
  {| is_running := true;
     progress := Some {| p_status := lit "running";
                         started_at := now;
                         current_file := None;
                         files_completed := 0;
                         total_files := total;
                         percentage := 0 |};
     last_sync := last_sync s |}.

(** Lines 147-156. *)
Definition empty_block (now : str) (s : sync_state_t) : sync_state_t :=
  {| is_running := false;
     progress := None;
     last_sync := Some {| status := lit "success";
                          message := lit "Source is empty - nothing to sync";
                          timestamp := now;
                          files_transferred := 0;
                          warnings := Some [lit "Source directory is empty"] |} |}.

(** Lines 189-194.  The second component is the exception the block ends
    with, if any: the assignments before it have happened. *)
Definition progress_block (line_stripped : str) (completed total : Z)
    (s : sync_state_t) : sync_state_t * option exn :=
  match progress s with
  | Some p =>
      let p := set_current_file (Some (slice_to 100 line_stripped)) p in
      let p := set_files_completed completed p in
      if total >? 0 then
        match compute_percentage completed total with
        | Ok pct => (set_progress (Some (set_percentage pct p)) s, None)
        | Err e => (set_progress (Some p) s, Some e)
        end
      else (set_progress (Some p) s, None)
  | None => (s, None)
  end.

(** Lines 239-248. *)
Definition finish_block (st msg now : str) (transferred : Z)
    (warns : list str) (s : sync_state_t) : sync_state_t :=
  {| is_running := false;
     progress := None;
     last_sync := Some {| status := st;
                          message := msg;
                          timestamp := now;
                          files_transferred := transferred;
                          warnings := match warns with
                                      | [] => None
                                      | _ :: _ => Some warns
                                      end |} |}.

(** Lines 252-261. *)
Definition failed_block (e : exn) (now : str) (s : sync_state_t)
  : sync_state_t :=
  {| is_running := false;
     progress := None;
     last_sync := Some {| status := lit "failed";
                          message := exn_text e;
                          timestamp := now;
                          files_transferred := 0;
                          warnings := None |} |}.

(** ** The operating system, as one run of the code meets it *)

(** The child process, from [Popen] to its end. *)
Record process_t : Type := mkProcess {
  stdout_lines : list str;       (* what [for line in process.stdout] yields *)
  stdout_error : option exn;     (* raised by the iteration after them *)
  returncode : Z;
  stderr_read : result str       (* [process.stderr.read()] *)
}.

Record disk_usage_t : Type := mkUsage { du_total : Z; du_used : Z; du_free : Z }.

Record world : Type := mkWorld {
  SOURCE_DIR : str;                         (* [str(SOURCE_DIR)] *)
  DESTINATION_DIR : str;
  now_first : str;                          (* [datetime.now().isoformat()] *)
  now_second : str;
  which_rsync : option str;                 (* [shutil.which("rsync")] *)
  source_rglob : list (result bool);        (* see [count_source_files] *)
  source_exists : result bool;              (* [SOURCE_DIR.exists()] *)
  source_iterdir : result (list str);       (* [SOURCE_DIR.iterdir()] *)
  destination_mkdir : result unit;
  write_test_touch : result unit;
  write_test_unlink : result unit;
  destination_disk_usage : result disk_usage_t;
  round2 : spec_float -> spec_float;        (* the built-in [round(x, 2)] *)
  float_str : spec_float -> str;            (* [str(x)] of a float *)
  popen : result process_t
}.

Definition check_rsync_available (w : world) : bool :=
  match which_rsync w with Some _ => true | None => false end.

Record disk_space_t : Type := mkDisk {
  d_total : Z; d_used : Z; d_free : Z; free_gb : number
}.

Definition get_disk_space (w : world) : disk_space_t :=
  let zeros := mkDisk 0 0 0 (NInt 0) in
  match destination_disk_usage w with
  | Ok st =>
      match int_true_div (du_free st) (1024 ^ 3) with
      | Ok x => mkDisk (du_total st) (du_used st) (du_free st)
                       (NFloat (round2 w x))
      | Err _ => zeros
      end
  | Err _ => zeros
  end.

Definition float_half : spec_float := S754_finite false 4503599627370496 (-53).

(** [x < 0.5] *)
Definition lt_half (x : number) : bool :=
  match x with
  | NInt n => n <=? 0
  | NFloat f => SFltb f float_half
  end.

Definition number_str (w : world) (x : number) : str :=
  match x with
  | NInt n => str_of_int n
  | NFloat f => float_str w f
  end.

(** [any(xs)] on a sequence of paths: paths are truthy. *)
Definition any_path (xs : list str) : bool :=
  match xs with [] => false | _ :: _ => true end.

(** ** The job body [run_sync_background] *)

Definition rsync_cmd (w : world) : list str :=
  [lit "rsync"; lit "-avh"; lit "--progress"; lit "--stats"; lit "--delete";
   lit "--partial-dir=.rsync-partial";
   SOURCE_DIR w ++ lit "/"; DESTINATION_DIR w ++ lit "/"].

(** The loop of lines 184-194; [completed] is [files_completed] before the
    line. *)
Fixpoint stdout_loop (total : Z) (err : option exn) (completed : Z)
    (lines : list str) : job unit :=
  match lines with
  | [] => match err with Some e => Raise e | None => Ret tt end
  | line :: rest =>
      let line_stripped := strip line in
      if qualifies line_stripped then
        let completed := completed + 1 in
        locked (progress_block line_stripped completed total) ;;
        stdout_loop total err completed rest
      else stdout_loop total err completed rest
  end.

(** The body of the outer [try]. *)
Definition job_steps (w : world) : job unit :=
  let warnings : list str := [] in
  let total := count_source_files (source_rglob w) in
  locked (fun s => (start_block total (now_first w) s, None)) ;;
  (if negb (check_rsync_available w)
   then Raise (Exception (lit "rsync not installed")) else Ret tt) ;;
  there <- call (source_exists w) ;;
  (if negb there
   then Raise (Exception (lit "Source not found: " ++ SOURCE_DIR w))
   else Ret tt) ;;
  source_empty <-
    try_except (entries <- call (source_iterdir w) ;;
                Ret (negb (any_path entries)))
               (fun _ => Ret false) ;;
  if source_empty then
    locked (fun s => (empty_block (now_second w) s, None))
  else
    call (destination_mkdir w) ;;
    try_except (call (write_test_touch w) ;; call (write_test_unlink w))
               (fun e => if is_PermissionError e
                         then Raise (Exception (lit "Cannot write to destination: "
                                                  ++ DESTINATION_DIR w))
                         else Raise e) ;;
    let disk := get_disk_space w in
    (if lt_half (free_gb disk)
     then Raise (Exception (lit "Low disk space: only "
                              ++ number_str w (free_gb disk) ++ lit "GB free"))
     else Ret tt) ;;
    process <- Spawn (rsync_cmd w) (call (popen w)) ;;
    stdout_loop total (stdout_error process) 0 (stdout_lines process) ;;
    stderr <- call (stderr_read process) ;;
    let result_stdout := List.concat (stdout_lines process) in
    let result_returncode := returncode process in
    let '(st, msg, warnings) :=
      classify_exit result_returncode stderr warnings in
    let output := result_stdout ++ stderr in
    let transferred := extract_files_transferred output in
    locked (fun s => (finish_block st msg (now_second w) transferred
                                   warnings s, None)).

Definition run_sync_background (w : world) : job unit :=
  try_except (job_steps w)
             (fun e => locked (fun s => (failed_block e (now_second w) s, None))).

(** ** The start operation [sync_folders] *)

Record started_t : Type := mkStarted {
  r_status : str;
  r_message : str;
  r_timestamp : str;
  source_path : str;
  destination_path : str
}.

Definition sync_folders (w : world) : job started_t :=
  locked (fun s =>
            (s, if is_running s
                then Some (mkExn (HTTPException 409)
                                 (lit "Sync already in progress"))
                else None)) ;;
  (if negb (check_rsync_available w)
   then Raise (mkExn (HTTPException 500) (lit "rsync not installed"))
   else Ret tt) ;;
  there <- call (source_exists w) ;;
  (if negb there
   then Raise (mkExn (HTTPException 404)
                     (lit "Source not found: " ++ SOURCE_DIR w))
   else Ret tt) ;;
  AddTask (Ret {| r_status := lit "started";
                  r_message := lit "Sync started in background";
                  r_timestamp := now_first w;
                  source_path := SOURCE_DIR w;
                  destination_path := DESTINATION_DIR w |}).

(** ** The server: requests and job bodies run side by side

    Threads take turns one node at a time, so between two lock-protected
    blocks of one thread any blocks of the others may run.  A request may
    arrive at any moment; a job body handed to the background tasks starts
    in a world of its own. *)

Inductive thread : Type :=
| Request (j : job started_t)
| Body (j : job unit).

Record config : Type := mkConfig {
  shared : sync_state_t;
  threads : list thread
}.

(** One node of a job: the job and the state after it, and whether a job
    body was handed over. *)
Inductive job_step {A : Type}
  : job A -> sync_state_t -> job A -> sync_state_t -> bool -> Prop :=
| js_atomic : forall upd k s, job_step (Atomic upd k) s (k s) (upd s) false
| js_spawn : forall cmd k s, job_step (Spawn cmd k) s k s false
| js_addtask : forall k s, job_step (AddTask k) s k s true.

Definition new_bodies (added : bool) (w : world) : list thread :=
  if added then [Body (run_sync_background w)] else [].

Inductive step : config -> config -> Prop :=
| step_arrive : forall s ts w,
    step (mkConfig s ts) (mkConfig s (ts ++ [Request (sync_folders w)]))
| step_request : forall s s' pre post j j' added w,
    job_step j s j' s' added ->
    step (mkConfig s (pre ++ Request j :: post))
         (mkConfig s' (pre ++ Request j' :: post ++ new_bodies added w))
| step_body : forall s s' pre post j j' added w,
    job_step j s j' s' added ->
    step (mkConfig s (pre ++ Body j :: post))
         (mkConfig s' (pre ++ Body j' :: post ++ new_bodies added w)).

(** What the server can get to from its start. *)
Inductive reachable : config -> Prop :=
| reach_init : reachable (mkConfig sync_state [])
| reach_step : forall c c', reachable c -> step c c' -> reachable c'.

(** ** Properties of states and of jobs *)

(** [is_running] is true exactly when [progress] is present. *)
Definition consistent (s : sync_state_t) : Prop :=
  is_running s = true <-> progress s <> None.

(** Not running, no progress. *)
Definition idle (s : sync_state_t) : Prop :=
  is_running s = false /\ progress s = None.

(** A present [progress] has its percentage between 0 and 99. *)
Definition percentage_bounded (s : sync_state_t) : Prop :=
  forall p, progress s = Some p -> 0 <= percentage p <= 99.

(** A present [progress] has percentage 0. *)
Definition percentage_zero (s : sync_state_t) : Prop :=
  forall p, progress s = Some p -> percentage p = 0.

(** Every lock-protected block of the job keeps [I]. *)
Fixpoint preserves (I : sync_state_t -> Prop) {A : Type} (j : job A) : Prop :=
  match j with
  | Ret _ | Raise _ => True
  | Atomic upd k =>
      (forall s, I s -> I (upd s)) /\ (forall s, preserves I (k s))
  | Spawn _ k | AddTask k => preserves I k
  end.

(** No lock-protected block of the job changes the state. *)
Fixpoint read_only {A : Type} (j : job A) : Prop :=
  match j with
  | Ret _ | Raise _ => True
  | Atomic upd k => (forall s, upd s = s) /\ (forall s, read_only (k s))
  | Spawn _ k | AddTask k => read_only k
  end.

Definition thread_preserves (I : sync_state_t -> Prop) (t : thread) : Prop :=
  match t with
  | Request j => preserves I j
  | Body j => preserves I j
  end.

(** The sign bit of a float is clear (a NaN has none). *)
Definition nonneg_float (x : spec_float) : Prop :=
  match x with
  | S754_zero s | S754_infinity s | S754_finite s _ _ => s = false
  | S754_nan => True
  end.

(** ** The outcome table, as the specification words it

    An enumerated mapping from exit code to outcome, with a default row;
    the test on the error text compares case-insensitively at every
    position of the text. *)

Definition same_letter (a b : ascii) : bool :=
  Ascii.eqb (lower_char a) (lower_char b).

(** [p] is the beginning of [s], up to case. *)
Fixpoint prefix_ci (p s : str) : bool :=
  match p, s with
  | [], _ => true
  | _ :: _, [] => false
  | a :: p', b :: s' => same_letter a b && prefix_ci p' s'
  end.

(** [p] occurs in [s], up to case. *)
Fixpoint contains_ci (p s : str) : bool :=
  prefix_ci p s ||
  match s with
  | [] => false
  | _ :: s' => contains_ci p s'
  end.

Definition outcome_rows (stderrText : str)
  : list (Z * (str * str * list str)) :=
  [ (0, (lit "success", lit "Sync completed", []));
    (3, (lit "failed", lit "Permission denied", []));
    (11, (lit "failed",
          if contains_ci (lit "no space left") stderrText
          then lit "Disk full" else lit "Disk I/O error", []));
    (23, (lit "warning", lit "Partial transfer - some files failed",
          [lit "Some files had errors"]));
    (24, (lit "warning", lit "Files vanished during sync",
          [lit "Some files were deleted during sync"])) ].

Definition classifyOutcome (exitCode : Z) (stderrText : str)
  : str * str * list str :=
  match find (fun row => fst row =? exitCode) (outcome_rows stderrText) with
  | Some row => snd row
  | None => (lit "failed",
             lit "Rsync failed with code " ++ str_of_int exitCode, [])
  end.

(** ** Concrete runs used below *)

Definition nl : str := ["010"%char].

Definition stats_line : str := lit "  1,234 100%  0.00kB/s".

(** A run of rsync that copies one file and ends with exit code 0. *)
Definition one_file_process : process_t :=
  {| stdout_lines := [lit "a.txt" ++ nl;
                      lit "Number of regular files transferred: 1" ++ nl];
     stdout_error := None;
     returncode := 0;
     stderr_read := Ok [] |}.

(** A machine with rsync, a source holding one file, a writable
    destination with room to spare. *)
Definition healthy_world : world :=
  {| SOURCE_DIR := lit "/srv/source";
     DESTINATION_DIR := lit "/srv/destination";
     now_first := lit "2024-01-01T00:00:00";
     now_second := lit "2024-01-01T00:00:05";
     which_rsync := Some (lit "/usr/bin/rsync");
     source_rglob := [Ok true];
     source_exists := Ok true;
     source_iterdir := Ok [lit "/srv/source/a.txt"];
     destination_mkdir := Ok tt;
     write_test_touch := Ok tt;
     write_test_unlink := Ok tt;
     destination_disk_usage := Ok (mkUsage (2 ^ 40) (2 ^ 39) (2 ^ 39));
     round2 := fun x => x;
     float_str := fun _ => lit "512.0";
     popen := Ok one_file_process |}.

Definition set_which_rsync (v : option str) (w : world) : world :=
  mkWorld (SOURCE_DIR w) (DESTINATION_DIR w) (now_first w) (now_second w)
          v (source_rglob w) (source_exists w) (source_iterdir w)
          (destination_mkdir w) (write_test_touch w) (write_test_unlink w)
          (destination_disk_usage w) (round2 w) (float_str w) (popen w).

Definition set_source (rglob : list (result bool))
    (iterdir : result (list str)) (w : world) : world :=
  mkWorld (SOURCE_DIR w) (DESTINATION_DIR w) (now_first w) (now_second w)
          (which_rsync w) rglob (source_exists w) iterdir
          (destination_mkdir w) (write_test_touch w) (write_test_unlink w)
          (destination_disk_usage w) (round2 w) (float_str w) (popen w).

Definition set_popen (v : result process_t) (w : world) : world :=
  mkWorld (SOURCE_DIR w) (DESTINATION_DIR w) (now_first w) (now_second w)
          (which_rsync w) (source_rglob w) (source_exists w) (source_iterdir w)
          (destination_mkdir w) (write_test_touch w) (write_test_unlink w)
          (destination_disk_usage w) (round2 w) (float_str w) v.

(** The source is empty and rsync is not installed. *)
Definition empty_source_no_rsync : world :=
  set_which_rsync None (set_source [] (Ok []) healthy_world).

(** The source is empty and rsync is installed. *)
Definition empty_source_world : world :=
  set_source [] (Ok []) healthy_world.

(** Listing the source fails; the rest of the run goes well. *)
Definition listing_denied : exn :=
  mkExn PermissionError (lit "[Errno 13] Permission denied: '/srv/source'").

Definition unlistable_source_world : world :=
  set_source [Ok true] (Err listing_denied) healthy_world.

(** The server after one request on the healthy machine has been accepted
    and its job body has run its first lock-protected block. *)
Definition accepted_request : job started_t :=
  match sync_folders healthy_world with
  | Atomic _ k => match k sync_state with AddTask k' => k' | j => j end
  | j => j
  end.

Definition started_body : job unit :=
  match run_sync_background healthy_world with
  | Atomic _ k => k sync_state
  | j => j
  end.

Definition running_config : config :=
  {| shared := start_block 1 (now_first healthy_world) sync_state;
     threads := [Request accepted_request; Body started_body] |}.

(** Two summary lines that parse and a last one that does not. *)
Definition summary_output : str :=
  lit "Number of regular files transferred: 3" ++ nl
  ++ lit "Number of regular files transferred: 7" ++ nl
  ++ lit "Number of regular files transferred: 1,234" ++ nl.

(** An item name of 120 characters, as rsync writes it. *)
Definition long_line : str := repeat "x"%char 120 ++ nl.

(** A state with a job running. *)
Definition running_state : sync_state_t :=
  start_block 1 (now_first healthy_world) sync_state.

(** A machine on which nothing the start operation asks for is there. *)
Definition bare_world : world :=
  mkWorld (SOURCE_DIR healthy_world) (DESTINATION_DIR healthy_world)
          (now_first healthy_world) (now_second healthy_world)
          None [] (Ok false) (Ok [])
          (destination_mkdir healthy_world) (write_test_touch healthy_world)
          (write_test_unlink healthy_world)
          (destination_disk_usage healthy_world) (round2 healthy_world)
          (float_str healthy_world) (popen healthy_world).

(** ** Further definitions: counting, the status and health reports *)

(** The items [rglob] yields before the first exception, as [is_file()]
    answered for them. *)
Fixpoint before_error (items : list (result bool)) : list bool :=
  match items with
  | Ok b :: rest => b :: before_error rest
  | _ => []
  end.

(** The number of lines of the child's output that count as items. *)
Definition count_item_lines (lines : list str) : Z :=
  Z.of_nat (List.length (filter is_item_line lines)).

(** What a run leaves of the progress it started with. *)
Definition same_run (p p' : progress_t) : Prop :=
  p_status p' = p_status p
  /\ started_at p' = started_at p
  /\ total_files p' = total_files p.

(** A character [int()] accepts somewhere in a number. *)
Definition int_char (c : ascii) : bool :=
  int_space c || is_digit c || is_underscore c
  || (ord c =? 43)%N || (ord c =? 45)%N.

(** A state of a run of the job body in world [w] that began in state
    [s0], before the run's last block: running, the earlier result still
    there, the progress with what the first block put into it. *)
Definition running_snapshot (w : world) (s0 st : sync_state_t) : Prop :=
  is_running st = true
  /\ last_sync st = last_sync s0
  /\ exists p, progress st = Some p
               /\ p_status p = lit "running"
               /\ started_at p = now_first w
               /\ total_files p = count_source_files (source_rglob w).

(** What the job body needs before it checks the destination: rsync
    installed, the source there and not seen to be empty. *)
Definition source_ready (w : world) : Prop :=
  check_rsync_available w = true
  /\ source_exists w = Ok true
  /\ source_iterdir w <> Ok [].

(** The destination could be made and written to. *)
Definition destination_writable (w : world) : Prop :=
  destination_mkdir w = Ok tt
  /\ write_test_touch w = Ok tt
  /\ write_test_unlink w = Ok tt.

(** The record a failed run leaves. *)
Definition failed_result (w : world) (msg : str) : last_sync_t :=
  {| status := lit "failed";
     message := msg;
     timestamp := now_second w;
     files_transferred := 0;
     warnings := None |}.

(** The destination cannot be written to. *)
Definition write_denied : exn :=
  mkExn PermissionError
        (lit "[Errno 13] Permission denied: '/srv/destination/.write_test'").

Definition set_write_test (touch unlink : result unit) (w : world) : world :=
  mkWorld (SOURCE_DIR w) (DESTINATION_DIR w) (now_first w) (now_second w)
          (which_rsync w) (source_rglob w) (source_exists w) (source_iterdir w)
          (destination_mkdir w) touch unlink
          (destination_disk_usage w) (round2 w) (float_str w) (popen w).

Definition set_disk_usage (v : result disk_usage_t) (w : world) : world :=
  mkWorld (SOURCE_DIR w) (DESTINATION_DIR w) (now_first w) (now_second w)
          (which_rsync w) (source_rglob w) (source_exists w) (source_iterdir w)
          (destination_mkdir w) (write_test_touch w) (write_test_unlink w)
          v (round2 w) (float_str w) (popen w).

(** The disk cannot be asked. *)
Definition disk_unknown : exn :=
  mkExn OtherException (lit "[Errno 2] No such file or directory").

(** Every lock-protected block of the job relates the state it finds to
    the state it leaves by [R]. *)
Fixpoint every_block (R : sync_state_t -> sync_state_t -> Prop) {A : Type}
    (j : job A) : Prop :=
  match j with
  | Ret _ | Raise _ => True
  | Atomic upd k =>
      (forall s, R s (upd s)) /\ (forall s, every_block R (k s))
  | Spawn _ k | AddTask k => every_block R k
  end.

Definition thread_every_block (R : sync_state_t -> sync_state_t -> Prop)
    (t : thread) : Prop :=
  match t with
  | Request j => every_block R j
  | Body j => every_block R j
  end.

(** What one block may do to the result and the running flag: keep the
    result and keep or set the flag, or leave the state idle with a
    result. *)
Definition block_effect (s s' : sync_state_t) : Prop :=
  (last_sync s' = last_sync s
   /\ (is_running s' = true \/ is_running s' = is_running s))
  \/ (idle s' /\ last_sync s' <> None).

(** ** The health and status reports *)

(** [get_disk_space] for any path: [usage] is what [shutil.disk_usage]
    answers for it. *)
Definition disk_space_of (rnd : spec_float -> spec_float)
    (usage : result disk_usage_t) : disk_space_t :=
  let zeros := mkDisk 0 0 0 (NInt 0) in
  match usage with
  | Ok st =>
      match int_true_div (du_free st) (1024 ^ 3) with
      | Ok x => mkDisk (du_total st) (du_used st) (du_free st)
                       (NFloat (rnd x))
      | Err _ => zeros
      end
  | Err _ => zeros
  end.

(** The answer of a call made under [except (PermissionError, OSError)]:
    what matters of an exception is whether it is an [OSError]. *)
Inductive answer (A : Type) : Type :=
| Answered (a : A)
| RaisedOSError (e : exn)
| RaisedOther (e : exn).
Arguments Answered {A} a.
Arguments RaisedOSError {A} e.
Arguments RaisedOther {A} e.

(** One item [rglob] yields to [count_files], with the answers of
    [is_file()], [stat().st_size] and [is_dir()] for it. *)
Record tree_item : Type := mkItem {
  item_is_file : answer bool;
  item_size : answer Z;
  item_is_dir : answer bool
}.

(** What the handlers of [/health] and [/status] meet beyond what the job
    meets: [tree] fields list the items [rglob] yields before it ends or
    raises. *)
Record report_world : Type := mkReport {
  rw_world : world;
  destination_exists : result bool;       (* [DESTINATION_DIR.exists()] *)
  base_disk_usage : result disk_usage_t;  (* [shutil.disk_usage(BASE_DIR)] *)
  source_tree : list tree_item;
  destination_tree : list tree_item
}.

(** *** [health_check] *)

Record health_t : Type := mkHealth {
  h_status : str;
  h_timestamp : str;
  h_rsync_available : bool;
  h_source_directory : bool;
  h_destination_directory : bool;
  h_disk_space : disk_space_t;
  h_error : option str;
  h_warning : option str
}.

Definition health_check (rw : report_world) : result health_t :=
  let w := rw_world rw in
  let rsync := check_rsync_available w in
  match source_exists w with
  | Err e => Err e
  | Ok src =>
      match destination_exists rw with
      | Err e => Err e
      | Ok dst =>
          let disk := disk_space_of (round2 w) (base_disk_usage rw) in
          let checks := mkHealth (lit "healthy") (now_first w) rsync src dst
                                 disk None None in
          if negb (h_rsync_available checks) then
            Ok (mkHealth (lit "unhealthy") (now_first w) rsync src dst disk
                         (Some (lit "rsync not installed")) None)
          else if negb (h_source_directory checks) then
            Ok (mkHealth (lit "degraded") (now_first w) rsync src dst disk
                         None (Some (lit "source directory not found")))
          else Ok checks
      end
  end.

(** *** [get_status] and its [count_files] *)

Record dir_info : Type := mkDirInfo {
  di_exists : bool;
  di_files : Z;
  di_folders : Z;
  di_total_size : Z;
  di_total_size_mb : number
}.

(** The loops of lines 296-307: an [OSError] at an item skips the rest of
    that item, any other exception ends the scan with the counts so far. *)
Fixpoint count_files_loop (items : list tree_item)
    (files folders total_size : Z) : Z * Z * Z :=
  match items with
  | [] => (files, folders, total_size)
  | item :: rest =>
      match item_is_file item with
      | Answered true =>
          let files := files + 1 in
          match item_size item with
          | Answered size =>
              count_files_loop rest files folders (total_size + size)
          | RaisedOSError _ => count_files_loop rest files folders total_size
          | RaisedOther _ => (files, folders, total_size)
          end
      | Answered false =>
          match item_is_dir item with
          | Answered true =>
              count_files_loop rest files (folders + 1) total_size
          | Answered false => count_files_loop rest files folders total_size
          | RaisedOSError _ => count_files_loop rest files folders total_size
          | RaisedOther _ => (files, folders, total_size)
          end
      | RaisedOSError _ => count_files_loop rest files folders total_size
      | RaisedOther _ => (files, folders, total_size)
      end
  end.

Definition count_files (rnd : spec_float -> spec_float)
    (dir_exists : result bool) (items : list tree_item) : result dir_info :=
  match dir_exists with
  | Err e => Err e
  | Ok false => Ok (mkDirInfo false 0 0 0 (NInt 0))
  | Ok true =>
      let '(files, folders, total_size) := count_files_loop items 0 0 0 in
      match int_true_div total_size (1024 * 1024) with
      | Ok x => Ok (mkDirInfo true files folders total_size (NFloat (rnd x)))
      | Err e => Err e
      end
  end.

(** The value [/status] returns.  The progress dictionary is handed out by
    reference: its fields may still change before the answer is sent. *)
Record status_t : Type := mkStatus {
  st_source_path : str;
  st_source : dir_info;
  st_destination_path : str;
  st_destination : dir_info;
  st_sync : sync_state_t;
  st_disk_space : disk_space_t;
  st_rsync_available : bool;
  st_timestamp : str
}.

Definition get_status (rw : report_world) : job status_t :=
  let w := rw_world rw in
  try_except
    (source_info <- call (count_files (round2 w) (source_exists w)
                                      (source_tree rw)) ;;
     destination_info <- call (count_files (round2 w) (destination_exists rw)
                                           (destination_tree rw)) ;;
     let disk_space := disk_space_of (round2 w) (base_disk_usage rw) in
     current_sync <-
       Atomic (fun s => s)
              (fun s => Ret {| is_running := is_running s;
                               progress := progress s;
                               last_sync := last_sync s |}) ;;
     Ret {| st_source_path := SOURCE_DIR w;
            st_source := source_info;
            st_destination_path := DESTINATION_DIR w;
            st_destination := destination_info;
            st_sync := current_sync;
            st_disk_space := disk_space;
            st_rsync_available := check_rsync_available w;
            st_timestamp := now_first w |})
    (fun e => Raise (mkExn (HTTPException 500)
                           (lit "Status error: " ++ exn_text e))).

(** What [count_files] counts of one item. *)
Definition counted_file (item : tree_item) : bool :=
  match item_is_file item with Answered true => true | _ => false end.

Definition counted_folder (item : tree_item) : bool :=
  match item_is_file item, item_is_dir item with
  | Answered false, Answered true => true
  | _, _ => false
  end.

Definition counted_size (item : tree_item) : Z :=
  match item_is_file item, item_size item with
  | Answered true, Answered size => size
  | _, _ => 0
  end.

(** One of the calls made for the item raises something that is no
    [OSError]. *)
Definition raises_other (item : tree_item) : bool :=
  match item_is_file item with
  | Answered true =>
      match item_size item with RaisedOther _ => true | _ => false end
  | Answered false =>
      match item_is_dir item with RaisedOther _ => true | _ => false end
  | RaisedOSError _ => false
  | RaisedOther _ => true
  end.

(** The listing as [count_source_files] meets it. *)
Definition file_answers (items : list tree_item) : list (result bool) :=
  map (fun item => match item_is_file item with
                   | Answered b => Ok b
                   | RaisedOSError e | RaisedOther e => Err e
                   end) items.

(** A source tree: a file, a folder, a file whose size cannot be read, an
    entry that cannot be looked at. *)
Definition mixed_tree : list tree_item :=
  [mkItem (Answered true) (Answered 100) (Answered false);
   mkItem (Answered false) (Answered 4096) (Answered true);
   mkItem (Answered true) (RaisedOSError listing_denied) (Answered false);
   mkItem (RaisedOSError listing_denied) (Answered 0) (Answered false);
   mkItem (Answered true) (Answered 23) (Answered false)].

Definition healthy_report : report_world :=
  {| rw_world := healthy_world;
     destination_exists := Ok true;
     base_disk_usage := Ok (mkUsage (2 ^ 40) (2 ^ 39) (2 ^ 39));
     source_tree := mixed_tree;
     destination_tree := [] |}.

Definition bare_report : report_world :=
  {| rw_world := bare_world;
     destination_exists := Ok false;
     base_disk_usage := Err disk_unknown;
     source_tree := [];
     destination_tree := [] |}.

(** The state a failed run leaves. *)
Definition failed_state (w : world) (msg : str) : sync_state_t :=
  {| is_running := false;
     progress := None;
     last_sync := Some (failed_result w msg) |}.

(** The output of the child cannot be decoded after its first line. *)
Definition decode_error : exn :=
  mkExn OtherException
        (lit "'utf-8' codec can't decode byte 0xff in position 0").

Definition broken_stream_process : process_t :=
  {| stdout_lines := [lit "a.txt" ++ nl];
     stdout_error := Some decode_error;
     returncode := 0;
     stderr_read := Ok [] |}.

(** ** Playing a schedule

    A schedule says which thread takes the next turn.  [Arrive w] is a
    start request coming in on a machine [w]; [Turn i w] lets thread [i]
    run one node, and [w] is the machine a job body meets if that node
    hands one over. *)

Inductive action : Type :=
| Arrive (w : world)
| Turn (i : nat) (w : world).

(** One node of a job, when it has one left. *)
Definition advance {A : Type} (j : job A) (s : sync_state_t)
  : option (job A * sync_state_t * bool) :=
  match j with
  | Ret _ | Raise _ => None
  | Atomic upd k => Some (k s, upd s, false)
  | Spawn _ k => Some (k, s, false)
  | AddTask k => Some (k, s, true)
  end.

Definition act (c : config) (a : action) : config :=
  match a with
  | Arrive w => mkConfig (shared c) (threads c ++ [Request (sync_folders w)])
  | Turn i w =>
      match nth_error (threads c) i with
      | Some (Request j) =>
          match advance j (shared c) with
          | Some (j', s', added) =>
              mkConfig s' (firstn i (threads c)
                           ++ Request j' :: skipn (S i) (threads c)
                           ++ new_bodies added w)
          | None => c
          end
      | Some (Body j) =>
          match advance j (shared c) with
          | Some (j', s', added) =>
              mkConfig s' (firstn i (threads c)
                           ++ Body j' :: skipn (S i) (threads c)
                           ++ new_bodies added w)
          | None => c
          end
      | None => c
      end
  end.

(** The server after a schedule, from its start. *)
Definition play (schedule : list action) : config :=
  fold_left act schedule (mkConfig sync_state []).

(** The job has a node left to run. *)
Definition unfinished {A : Type} (j : job A) : bool :=
  match j with
  | Ret _ | Raise _ => false
  | _ => true
  end.

Definition body_unfinished (t : thread) : bool :=
  match t with
  | Body j => unfinished j
  | Request _ => false
  end.

(** A machine whose source holds one empty folder and no file. *)
Definition no_file_world : world :=
  set_source [Ok false] (Ok [lit "/srv/source/d"]) healthy_world.

(** Two starts are accepted one after the other, the first for a source
    with one file, the second for a source without files; both job bodies
    run their first block, the second last. *)
Definition two_bodies_started : list action :=
  [Arrive healthy_world; Turn 0 healthy_world; Turn 0 healthy_world;
   Arrive no_file_world; Turn 2 no_file_world; Turn 2 no_file_world;
   Turn 1 healthy_world; Turn 3 healthy_world].

(** Then the first body launches rsync and reads its first line. *)
Definition overlap_schedule : list action :=
  two_bodies_started ++ [Turn 1 healthy_world; Turn 1 healthy_world].

(** Then the first body reads its second line and runs its last block; the
    second body has not gone on. *)
Definition first_body_done_schedule : list action :=
  overlap_schedule ++ [Turn 1 healthy_world; Turn 1 healthy_world].

(** * Properties *)

(** ** Strings *)

Lemma lstrip_split (s : str) :
  exists ws, s = ws ++ lstrip s /\ forallb isspace ws = true.
Proof.
  induction s as [|c s IH]; simpl.
  - exists []. split; reflexivity.
  - destruct (isspace c) eqn:Hc.
    + destruct IH as [ws [E F]]. exists (c :: ws). simpl.
      rewrite Hc, F. split; [f_equal; exact E | reflexivity].
    + exists []. split; reflexivity.
Qed.

Lemma lstrip_head (s : str) (c : ascii) (r : str) :
  lstrip s = c :: r -> isspace c = false.
Proof.
  induction s as [|a s IH]; simpl; [discriminate|].
  destruct (isspace a) eqn:Ha; [exact IH|].
  intros E. injection E as -> _. exact Ha.
Qed.

Lemma rstrip_split (s : str) :
  exists ws, s = rstrip s ++ ws /\ forallb isspace ws = true.
Proof.
  unfold rstrip. destruct (lstrip_split (rev s)) as [ws [E F]].
  exists (rev ws). split.
  - rewrite <- rev_app_distr, <- E, rev_involutive. reflexivity.
  - rewrite forallb_forall in *. intros x Hx. apply F, in_rev, Hx.
Qed.

(** What [strip] returns begins with no white space. *)
Lemma strip_head (s : str) (c : ascii) (r : str) :
  strip s = c :: r -> isspace c = false.
Proof.
  unfold strip. intros E.
  destruct (rstrip_split (lstrip s)) as [ws [E' _]].
  rewrite E in E'. simpl in E'.
  exact (lstrip_head _ _ _ E').
Qed.

(** The second test of line 187 never fires. *)
Lemma strip_not_startswith_space (line : str) :
  startswith (lit " ") (strip line) = false.
Proof.
  destruct (strip line) as [|c r] eqn:E; [reflexivity|].
  apply strip_head in E.
  change (startswith (lit " ") (c :: r)) with (Ascii.eqb " " c && true).
  destruct (Ascii.eqb_spec " " c) as [<-|_]; [discriminate E | reflexivity].
Qed.

Lemma is_item_line_eq (line : str) :
  is_item_line line
  = truthy (strip line) && negb (endswith (lit "/") (strip line)).
Proof.
  unfold is_item_line, qualifies.
  rewrite strip_not_startswith_space. simpl. rewrite andb_true_r. reflexivity.
Qed.

(** C1. The test of line 187 counts a line as a finished item exactly when
    the stripped line is not empty and does not end with a slash; the test
    for a leading blank comes after the stripping and never fires.  So the
    indented statistics line of rsync is counted as an item, while a
    directory line is not and a file line is. *)
Theorem C1_statistics_line_counted :
  (forall line,
     is_item_line line
     = truthy (strip line) && negb (endswith (lit "/") (strip line)))
  /\ is_item_line (stats_line ++ nl) = true
  /\ is_item_line (lit "some/dir/") = false
  /\ is_item_line (lit "some/file.txt") = true
  /\ option_map files_completed
       (progress (fst (progress_block (strip (stats_line ++ nl)) 1 1
                         (start_block 1 [] sync_state))))
     = Some 1.
Proof.
  split; [exact is_item_line_eq|].
  repeat split; vm_compute; reflexivity.
Qed.

(** ** Running composed jobs *)

Lemma outcome_bind {A B : Type} (m : job A) (f : A -> job B) s :
  outcome (bind m f) s
  = match outcome m s with
    | Ok a => outcome (f a) (final_state m s)
    | Err e => Err e
    end.
Proof.
  revert s. induction m as [a|e|upd k IH|cmd k IH|k IH]; intros s; simpl;
    auto.
Qed.

Lemma final_state_bind {A B : Type} (m : job A) (f : A -> job B) s :
  final_state (bind m f) s
  = match outcome m s with
    | Ok a => final_state (f a) (final_state m s)
    | Err _ => final_state m s
    end.
Proof.
  revert s. induction m as [a|e|upd k IH|cmd k IH|k IH]; intros s; simpl;
    auto.
Qed.

Lemma states_bind {A B : Type} (m : job A) (f : A -> job B) s :
  states (bind m f) s
  = states m s ++ match outcome m s with
                  | Ok a => states (f a) (final_state m s)
                  | Err _ => []
                  end.
Proof.
  revert s. induction m as [a|e|upd k IH|cmd k IH|k IH]; intros s; simpl;
    auto.
  rewrite IH. reflexivity.
Qed.

Lemma spawned_bind {A B : Type} (m : job A) (f : A -> job B) s :
  spawned (bind m f) s
  = spawned m s ++ match outcome m s with
                   | Ok a => spawned (f a) (final_state m s)
                   | Err _ => []
                   end.
Proof.
  revert s. induction m as [a|e|upd k IH|cmd k IH|k IH]; intros s; simpl;
    auto.
  rewrite IH. reflexivity.
Qed.

Lemma outcome_try_except {A : Type} (m : job A) (h : exn -> job A) s :
  outcome (try_except m h) s
  = match outcome m s with
    | Ok a => Ok a
    | Err e => outcome (h e) (final_state m s)
    end.
Proof.
  revert s. induction m as [a|e|upd k IH|cmd k IH|k IH]; intros s; simpl;
    auto.
Qed.

Lemma final_state_try_except {A : Type} (m : job A) (h : exn -> job A) s :
  final_state (try_except m h) s
  = match outcome m s with
    | Ok _ => final_state m s
    | Err e => final_state (h e) (final_state m s)
    end.
Proof.
  revert s. induction m as [a|e|upd k IH|cmd k IH|k IH]; intros s; simpl;
    auto.
Qed.

Lemma states_try_except {A : Type} (m : job A) (h : exn -> job A) s :
  states (try_except m h) s
  = states m s ++ match outcome m s with
                  | Ok _ => []
                  | Err e => states (h e) (final_state m s)
                  end.
Proof.
  revert s. induction m as [a|e|upd k IH|cmd k IH|k IH]; intros s; simpl;
    auto.
  rewrite IH. reflexivity.
Qed.

Lemma spawned_try_except {A : Type} (m : job A) (h : exn -> job A) s :
  spawned (try_except m h) s
  = spawned m s ++ match outcome m s with
                   | Ok _ => []
                   | Err e => spawned (h e) (final_state m s)
                   end.
Proof.
  revert s. induction m as [a|e|upd k IH|cmd k IH|k IH]; intros s; simpl;
    auto.
  rewrite IH. reflexivity.
Qed.

(** ** Keeping an invariant *)

Section Preserves.
Variable I : sync_state_t -> Prop.

Lemma preserves_bind {A B : Type} (m : job A) (f : A -> job B) :
  preserves I m -> (forall a, preserves I (f a)) -> preserves I (bind m f).
Proof.
  intros Hm Hf. induction m as [a|e|upd k IH|cmd k IH|k IH]; simpl in *;
    auto.
  destruct Hm as [H1 H2]. split; auto.
Qed.

Lemma preserves_try_except {A : Type} (m : job A) (h : exn -> job A) :
  preserves I m -> (forall e, preserves I (h e)) ->
  preserves I (try_except m h).
Proof.
  intros Hm Hh. induction m as [a|e|upd k IH|cmd k IH|k IH]; simpl in *;
    auto.
  destruct Hm as [H1 H2]. split; auto.
Qed.

Lemma preserves_locked (body : sync_state_t -> sync_state_t * option exn) :
  (forall s, I s -> I (fst (body s))) -> preserves I (locked body).
Proof.
  intros H. simpl. split; [exact H|].
  intros s. destruct (snd (body s)); exact Logic.I.
Qed.

Lemma preserves_call {A : Type} (r : result A) : preserves I (call r).
Proof. destruct r; exact Logic.I. Qed.

Lemma preserves_states {A : Type} (j : job A) s :
  preserves I j -> I s -> Forall I (states j s).
Proof.
  revert s. induction j as [a|e|upd k IH|cmd k IH|k IH]; intros s Hj Hs;
    simpl in *; auto.
  destruct Hj as [H1 H2]. constructor; auto.
Qed.

Lemma job_step_preserves {A : Type} (j j' : job A) s s' added :
  job_step j s j' s' added -> preserves I j -> I s ->
  preserves I j' /\ I s'.
Proof.
  intros Hstep. destruct Hstep; simpl; intros Hj Hs.
  - destruct Hj as [H1 H2]. split; auto.
  - split; assumption.
  - split; assumption.
Qed.

Hypothesis I_init : I sync_state.
Hypothesis I_body : forall w, preserves I (run_sync_background w).
Hypothesis I_request : forall w, preserves I (sync_folders w).

Lemma new_bodies_preserve added w :
  Forall (thread_preserves I) (new_bodies added w).
Proof.
  destruct added; simpl; [|constructor].
  constructor; [exact (I_body w) | constructor].
Qed.

(** An invariant of every block of both operations holds in every state
    the server can get to. *)
Lemma reachable_invariant (c : config) :
  reachable c -> I (shared c) /\ Forall (thread_preserves I) (threads c).
Proof.
  induction 1 as [|c c' Hc [IHs IHt] Hstep].
  - split; [exact I_init | constructor].
  - destruct Hstep as [s ts w | s s' pre post j j' added w Hj
                      | s s' pre post j j' added w Hj]; simpl in *.
    + split; [exact IHs|].
      apply Forall_app. split; [exact IHt|].
      constructor; [apply I_request | constructor].
    + apply Forall_app in IHt. destruct IHt as [Hpre Hrest].
      inversion Hrest as [|t l Ht Hpost]; subst.
      destruct (job_step_preserves _ _ _ _ _ Hj Ht IHs) as [Hj' Hs'].
      split; [exact Hs'|].
      apply Forall_app. split; [exact Hpre|].
      constructor; [exact Hj'|].
      apply Forall_app. split; [exact Hpost | apply new_bodies_preserve].
    + apply Forall_app in IHt. destruct IHt as [Hpre Hrest].
      inversion Hrest as [|t l Ht Hpost]; subst.
      destruct (job_step_preserves _ _ _ _ _ Hj Ht IHs) as [Hj' Hs'].
      split; [exact Hs'|].
      apply Forall_app. split; [exact Hpre|].
      constructor; [exact Hj'|].
      apply Forall_app. split; [exact Hpost | apply new_bodies_preserve].
Qed.
End Preserves.

(** ** Invariants of the two operations *)

Section BlockInvariant.
Variable I : sync_state_t -> Prop.
Hypothesis I_start : forall total now s, I (start_block total now s).
Hypothesis I_empty : forall now s, I (empty_block now s).
Hypothesis I_finish : forall st msg now n ws s,
    I (finish_block st msg now n ws s).
Hypothesis I_failed : forall e now s, I (failed_block e now s).
Hypothesis I_progress : forall ls completed total s,
    0 <= completed -> I s -> I (fst (progress_block ls completed total s)).

Lemma preserves_stdout_loop total err lines :
  forall completed, 0 <= completed ->
                    preserves I (stdout_loop total err completed lines).
Proof.
  induction lines as [|line rest IH]; intros completed Hc;
    cbn [stdout_loop].
  - destruct err; exact Logic.I.
  - destruct (qualifies (strip line)).
    + apply preserves_bind.
      * apply preserves_locked. intros s Hs. apply I_progress; [lia|exact Hs].
      * intros _. apply IH. lia.
    + apply IH. exact Hc.
Qed.

Lemma preserves_job_steps w : preserves I (job_steps w).
Proof.
  unfold job_steps.
  apply preserves_bind; [apply preserves_locked; intros; apply I_start|].
  intros _. apply preserves_bind; [destruct (negb _); exact Logic.I|].
  intros _. apply preserves_bind; [apply preserves_call|].
  intros there. apply preserves_bind; [destruct (negb _); exact Logic.I|].
  intros _. apply preserves_bind.
  { apply preserves_try_except; [|intros; exact Logic.I].
    apply preserves_bind; [apply preserves_call | intros; exact Logic.I]. }
  intros [|].
  { apply preserves_locked; intros; apply I_empty. }
  apply preserves_bind; [apply preserves_call|].
  intros _. apply preserves_bind.
  { apply preserves_try_except.
    - apply preserves_bind; [apply preserves_call|].
      intros _. apply preserves_call.
    - intros e. destruct (is_PermissionError e); exact Logic.I. }
  intros _. apply preserves_bind; [destruct (lt_half _); exact Logic.I|].
  intros _. apply preserves_bind.
  { cbn [preserves]. apply preserves_call. }
  intros process. apply preserves_bind.
  { apply preserves_stdout_loop. lia. }
  intros _. apply preserves_bind; [apply preserves_call|].
  intros stderr.
  destruct (classify_exit (returncode process) stderr []) as [[st msg] ws].
  apply preserves_locked; intros; apply I_finish.
Qed.

Lemma preserves_run_sync_background w :
  preserves I (run_sync_background w).
Proof.
  unfold run_sync_background. apply preserves_try_except.
  - apply preserves_job_steps.
  - intros e. apply preserves_locked; intros; apply I_failed.
Qed.
End BlockInvariant.

(** The start operation writes nothing. *)
Lemma read_only_bind {A B : Type} (m : job A) (f : A -> job B) :
  read_only m -> (forall a, read_only (f a)) -> read_only (bind m f).
Proof.
  intros Hm Hf. induction m as [a|e|upd k IH|cmd k IH|k IH]; simpl in *; auto.
  destruct Hm as [H1 H2]. split; auto.
Qed.

Lemma read_only_call {A : Type} (r : result A) : read_only (call r).
Proof. destruct r; exact I. Qed.

Lemma read_only_sync_folders w : read_only (sync_folders w).
Proof.
  unfold sync_folders.
  apply read_only_bind.
  { simpl. split; [reflexivity|]. intros s. destruct (is_running s); exact I. }
  intros _. apply read_only_bind; [destruct (negb _); exact I|].
  intros _. apply read_only_bind; [apply read_only_call|].
  intros there. apply read_only_bind; [destruct (negb _); exact I|].
  intros _. exact I.
Qed.

Lemma read_only_preserves (P : sync_state_t -> Prop) {A : Type} (j : job A) :
  read_only j -> preserves P j.
Proof.
  induction j as [a|e|upd k IH|cmd k IH|k IH]; simpl; auto.
  intros [H1 H2]. split; [|auto].
  intros s Hs. rewrite H1. exact Hs.
Qed.

Lemma read_only_final_state {A : Type} (j : job A) s :
  read_only j -> final_state j s = s.
Proof.
  revert s. induction j as [a|e|upd k IH|cmd k IH|k IH]; intros s; simpl;
    auto.
  intros [H1 H2]. rewrite H1. apply IH, H2.
Qed.

Lemma read_only_states {A : Type} (j : job A) s :
  read_only j -> Forall (eq s) (states j s).
Proof.
  revert s. induction j as [a|e|upd k IH|cmd k IH|k IH]; intros s; simpl;
    auto.
  intros [H1 H2]. rewrite H1. constructor; [reflexivity|]. apply IH, H2.
Qed.

(** *** Running if and only if progress is present *)

Lemma consistent_progress_block ls completed total s :
  consistent s -> consistent (fst (progress_block ls completed total s)).
Proof.
  unfold consistent, progress_block. intros H.
  destruct (progress s) as [p|] eqn:Hp; [|simpl; rewrite Hp; exact H].
  assert (Hr : is_running s = true) by (apply H; discriminate).
  destruct (total >? 0); [destruct (compute_percentage completed total)|];
    simpl; (split; [discriminate | intros _; exact Hr]).
Qed.

Lemma consistent_idle s : idle s -> consistent s.
Proof.
  intros [Hr Hp]. unfold consistent. rewrite Hr, Hp.
  split; [discriminate | intros H; contradiction H; reflexivity].
Qed.

Lemma consistent_body w : preserves consistent (run_sync_background w).
Proof.
  apply preserves_run_sync_background.
  - intros. unfold consistent. simpl. split; [discriminate | reflexivity].
  - intros. apply consistent_idle. split; reflexivity.
  - intros. apply consistent_idle. split; reflexivity.
  - intros. apply consistent_idle. split; reflexivity.
  - intros. apply consistent_progress_block. assumption.
Qed.

(** C4. Every lock-protected block of the job body and of the start
    operation keeps "running if and only if progress is present", and so
    the property holds in every state the server can get to, whatever the
    order in which requests and job bodies take their turns. *)
Theorem C4_running_iff_progress :
  (forall w, preserves consistent (run_sync_background w))
  /\ (forall w, preserves consistent (sync_folders w))
  /\ (forall c, reachable c -> consistent (shared c)).
Proof.
  split; [exact consistent_body|].
  split; [intros w; apply read_only_preserves, read_only_sync_folders|].
  intros c Hc.
  apply (reachable_invariant consistent); [| |
    intros w; apply read_only_preserves, read_only_sync_folders | exact Hc].
  - apply consistent_idle. split; reflexivity.
  - exact consistent_body.
Qed.

Lemma running_config_reachable : reachable running_config.
Proof.
  apply (reach_step
           (mkConfig sync_state
                     [Request accepted_request;
                      Body (run_sync_background healthy_world)])).
  2: exact (step_body sync_state _ [Request accepted_request] [] _ _ false
              healthy_world (js_atomic _ _ sync_state)).
  apply (reach_step
           (mkConfig sync_state
                     [Request (AddTask accepted_request)])).
  2: exact (step_request sync_state _ [] [] _ _ true healthy_world
              (js_addtask _ sync_state)).
  apply (reach_step
           (mkConfig sync_state [Request (sync_folders healthy_world)])).
  2: exact (step_request sync_state _ [] [] _ _ false healthy_world
              (js_atomic _ _ sync_state)).
  apply (reach_step (mkConfig sync_state [])).
  2: exact (step_arrive sync_state [] healthy_world).
  exact reach_init.
Defined.

Lemma C4_running_iff_progress_witness :
  is_running (shared running_config) = true
  /\ consistent (shared running_config).
Proof.
  split; [reflexivity|].
  apply (proj2 (proj2 C4_running_iff_progress)).
  exact running_config_reachable.
Defined.

(** ** The percentage *)

Lemma binary_round_aux_nonneg (m e : Z) (l : location) :
  nonneg_float (binary_round_aux prec emax false m e l).
Proof.
  unfold binary_round_aux.
  destruct (shr_fexp prec emax m e l) as [mrs' e'].
  destruct (shr_fexp prec emax _ e' loc_Exact) as [mrs'' e''].
  destruct (shr_m mrs'') as [|p|p]; [reflexivity | | exact I].
  destruct (e'' <=? emax - prec); reflexivity.
Qed.

Lemma float_of_100 :
  float_of_pos 100 = S754_finite false 7036874417766400 (-46).
Proof. vm_compute. reflexivity. Qed.

Lemma float_mul_pos_100_nonneg (x : spec_float) :
  nonneg_float x -> nonneg_float (float_mul_pos x 100).
Proof.
  unfold float_mul_pos. rewrite float_of_100.
  destruct x as [s|s| |s m e]; simpl; intros H; subst; auto.
  apply binary_round_aux_nonneg.
Qed.

Lemma int_true_div_nonneg (a b : Z) (q : spec_float) :
  0 <= a -> 0 < b -> int_true_div a b = Ok q -> nonneg_float q.
Proof.
  intros Ha Hb. unfold int_true_div.
  destruct b as [|b|b]; try lia.
  destruct a as [|a|a]; try lia.
  - intros E. injection E as <-. reflexivity.
  - cbn [Z.ltb Z.compare Z.abs Z.to_pos SFdiv xorb].
    destruct (SFdiv_core_binary prec emax (Z.pos a) 0 (Z.pos b) 0)
      as [[mz ez] lz].
    pose proof (binary_round_aux_nonneg mz ez lz) as H.
    destruct (binary_round_aux prec emax false mz ez lz);
      intros E; try discriminate E; injection E as <-; exact H.
Qed.

Lemma round_half_even_nonneg (m : positive) (e : Z) :
  0 <= round_half_even m e.
Proof.
  unfold round_half_even. destruct e as [|k|k].
  - lia.
  - apply Z.mul_nonneg_nonneg; [lia | apply Z.pow_nonneg; lia].
  - assert (Hd : 0 < 2 ^ Z.pos k) by (apply Z.pow_pos_nonneg; lia).
    assert (Hq : 0 <= Z.pos m / 2 ^ Z.pos k) by (apply Z.div_pos; lia).
    cbv zeta.
    destruct (2 * (Z.pos m mod 2 ^ Z.pos k) ?= 2 ^ Z.pos k); try lia.
    destruct (Z.even _); lia.
Qed.

Lemma py_round_nonneg (x : spec_float) (n : Z) :
  nonneg_float x -> py_round x = Ok n -> 0 <= n.
Proof.
  destruct x as [s|s| |s m e]; simpl; intros H E; try discriminate E;
    injection E as <-; [lia|].
  subst s. simpl. apply round_half_even_nonneg.
Qed.

(** The percentage the progress block writes lies between 0 and 99. *)
Lemma compute_percentage_bounds (completed total n : Z) :
  0 <= completed -> 0 < total ->
  compute_percentage completed total = Ok n -> 0 <= n <= 99.
Proof.
  intros Hc Ht. unfold compute_percentage.
  destruct (int_true_div completed total) as [q|e] eqn:Hq; [|discriminate].
  apply int_true_div_nonneg in Hq; [|assumption..].
  destruct (py_round (float_mul_pos q 100)) as [r|e] eqn:Hr; [|discriminate].
  apply py_round_nonneg in Hr; [|apply float_mul_pos_100_nonneg, Hq].
  intros E. injection E as <-. lia.
Qed.

Lemma percentage_bounded_progress_block ls completed total s :
  0 <= completed -> percentage_bounded s ->
  percentage_bounded (fst (progress_block ls completed total s)).
Proof.
  unfold percentage_bounded, progress_block. intros Hc H.
  destruct (progress s) as [p|] eqn:Hp; [|simpl; rewrite Hp; exact H].
  specialize (H p eq_refl).
  destruct (total >? 0) eqn:Ht.
  - destruct (compute_percentage completed total) as [n|e] eqn:Hn;
      simpl; intros p' E; injection E as <-; simpl; [|exact H].
    apply (compute_percentage_bounds completed total); [lia | lia | exact Hn].
  - simpl. intros p' E. injection E as <-. simpl. exact H.
Qed.

Lemma percentage_bounded_body w :
  preserves percentage_bounded (run_sync_background w).
Proof.
  apply preserves_run_sync_background.
  - intros total now s p E. injection E as <-. simpl. lia.
  - intros now s p E. discriminate E.
  - intros st msg now n ws s p E. discriminate E.
  - intros e now s p E. discriminate E.
  - intros. apply percentage_bounded_progress_block; assumption.
Qed.

(** With no file counted at the start, no block touches the percentage. *)
Lemma percentage_zero_progress_block ls completed s :
  percentage_zero s ->
  percentage_zero (fst (progress_block ls completed 0 s)).
Proof.
  unfold percentage_zero, progress_block. intros H.
  destruct (progress s) as [p|] eqn:Hp; [|simpl; rewrite Hp; exact H].
  simpl. intros p' E. injection E as <-. simpl. exact (H p eq_refl).
Qed.

Lemma percentage_zero_body w :
  count_source_files (source_rglob w) = 0 ->
  preserves percentage_zero (job_steps w) /\
  preserves percentage_zero (run_sync_background w).
Proof.
  intros Hz.
  assert (Hloop : forall err lines completed,
             preserves percentage_zero (stdout_loop 0 err completed lines)).
  { intros err lines. induction lines as [|line rest IH]; intros completed;
      cbn [stdout_loop].
    - destruct err; exact I.
    - destruct (qualifies (strip line)); [|apply IH].
      apply preserves_bind; [|intros _; apply IH].
      apply preserves_locked. intros s.
      apply percentage_zero_progress_block. }
  assert (Hsteps : preserves percentage_zero (job_steps w)).
  { unfold job_steps. rewrite Hz.
    apply preserves_bind.
    { apply preserves_locked. intros s _ p E. injection E as <-. reflexivity. }
    intros _. apply preserves_bind; [destruct (negb _); exact I|].
    intros _. apply preserves_bind; [apply preserves_call|].
    intros there. apply preserves_bind; [destruct (negb _); exact I|].
    intros _. apply preserves_bind.
    { apply preserves_try_except; [|intros; exact I].
      apply preserves_bind; [apply preserves_call | intros; exact I]. }
    intros [|].
    { apply preserves_locked. intros s _ p E. discriminate E. }
    apply preserves_bind; [apply preserves_call|].
    intros _. apply preserves_bind.
    { apply preserves_try_except.
      - apply preserves_bind; [apply preserves_call|].
        intros _. apply preserves_call.
      - intros e. destruct (is_PermissionError e); exact I. }
    intros _. apply preserves_bind; [destruct (lt_half _); exact I|].
    intros _. apply preserves_bind; [cbn [preserves]; apply preserves_call|].
    intros process. apply preserves_bind; [apply Hloop|].
    intros _. apply preserves_bind; [apply preserves_call|].
    intros stderr.
    destruct (classify_exit (returncode process) stderr []) as [[st msg] ws].
    apply preserves_locked. intros s _ p E. discriminate E. }
  split; [exact Hsteps|].
  unfold run_sync_background. apply preserves_try_except; [exact Hsteps|].
  intros e. apply preserves_locked. intros s _ p E. discriminate E.
Qed.

(** *** The percentage is computed without exception *)

Lemma iter_pos_invariant {A : Type} (f : A -> A) (P : A -> Prop) :
  (forall x, P x -> P (f x)) ->
  forall p x, P x -> P (iter_pos f p x).
Proof.
  intros Hf. induction p as [p IH|p IH|]; intros x Hx; simpl; auto.
Qed.

Lemma shr_1_bounds (M : Z) (mrs : shr_record) :
  0 <= shr_m mrs <= M -> 0 <= shr_m (shr_1 mrs) <= M.
Proof.
  destruct mrs as [m r s]. simpl.
  destruct m as [|[p|p|]|[p|p|]]; simpl; lia.
Qed.

Lemma shr_bounds (M : Z) (mrs : shr_record) (e n : Z) :
  0 <= shr_m mrs <= M ->
  0 <= shr_m (fst (shr mrs e n)) <= M
  /\ snd (shr mrs e n) = Z.max e (e + n).
Proof.
  intros H. unfold shr. destruct n as [|p|p]; simpl.
  - split; [exact H | lia].
  - split; [|lia].
    apply (iter_pos_invariant shr_1 (fun x => 0 <= shr_m x <= M));
      [apply shr_1_bounds | exact H].
  - split; [exact H | lia].
Qed.

Lemma shr_record_of_loc_m (m : Z) (l : location) :
  shr_m (shr_record_of_loc m l) = m.
Proof. destruct l as [|[]]; reflexivity. Qed.

Lemma pow2_nonpos (k : Z) : k <= 0 -> 2 ^ k <= 1.
Proof. intros Hk. destruct k as [|p|p]; simpl; lia. Qed.

Lemma digits2_pos_le (p : positive) :
  forall k, Z.pos p < 2 ^ k -> Z.pos (digits2_pos p) <= k.
Proof.
  assert (Hhalf : forall k (q : positive),
             0 < k -> 2 * Z.pos q < 2 ^ k -> Z.pos q < 2 ^ (k - 1)).
  { intros k q Hk H. replace k with (Z.succ (k - 1)) in H by lia.
    rewrite Z.pow_succ_r in H by lia. lia. }
  induction p as [p IH|p IH|]; intros k Hk; simpl;
    destruct (Z_le_gt_dec k 0) as [Hle|Hgt];
    try (pose proof (pow2_nonpos k Hle); lia).
  - specialize (IH (k - 1) (Hhalf k p ltac:(lia) ltac:(lia))). lia.
  - specialize (IH (k - 1) (Hhalf k p ltac:(lia) ltac:(lia))). lia.
  - lia.
Qed.

Lemma Zdigits2_le (m k : Z) :
  0 <= m < 2 ^ k -> 0 <= k -> 0 <= Zdigits2 m <= k.
Proof.
  intros [H0 Hk] Hk0. destruct m as [|p|p]; simpl; try lia.
  split; [lia | apply digits2_pos_le, Hk].
Qed.

Lemma fexp_le (x b : Z) :
  x - 53 <= b -> -1074 <= b -> fexp prec emax x <= b.
Proof. unfold fexp, emin, prec, emax. lia. Qed.

Lemma shr_fexp_bounds (m e : Z) (l : location) (k E : Z) :
  0 <= m < 2 ^ k -> 53 <= k -> -1074 <= E -> e <= E ->
  0 <= shr_m (fst (shr_fexp prec emax m e l)) <= m
  /\ snd (shr_fexp prec emax m e l) <= k + E - 53.
Proof.
  intros Hm Hk HE He. unfold shr_fexp.
  destruct (shr_bounds m (shr_record_of_loc m l) e
              (fexp prec emax (Zdigits2 m + e) - e)) as [H1 H2].
  { rewrite shr_record_of_loc_m. lia. }
  split; [exact H1|]. rewrite H2.
  assert (Hd : 0 <= Zdigits2 m <= k) by (apply Zdigits2_le; lia).
  assert (fexp prec emax (Zdigits2 m + e) <= k + E - 53)
    by (apply fexp_le; lia).
  lia.
Qed.

Lemma round_nearest_even_bounds (m : Z) (l : location) :
  m <= round_nearest_even m l <= m + 1.
Proof.
  unfold round_nearest_even. destruct l as [|[]]; try lia.
  destruct (Z.even m); lia.
Qed.

(** Rounding a mantissa below [2^k] at an exponent at most [E] gives zero
    or a finite float, with a mantissa below [2^(k+1)] and an exponent at
    most [2k + E - 105], provided that exponent is in range. *)
Lemma binary_round_aux_bounded (sx : bool) (mx ex : Z) (lx : location)
    (k E : Z) :
  0 <= mx < 2 ^ k -> 53 <= k -> -1074 <= E -> ex <= E ->
  2 * k + E - 105 <= 971 ->
  match binary_round_aux prec emax sx mx ex lx with
  | S754_zero _ => True
  | S754_finite _ m e => Z.pos m < 2 ^ (k + 1) /\ e <= 2 * k + E - 105
  | _ => False
  end.
Proof.
  intros Hm Hk HE He Hfit. unfold binary_round_aux.
  destruct (shr_fexp_bounds mx ex lx k E Hm Hk HE He) as [H1 H2].
  destruct (shr_fexp prec emax mx ex lx) as [mrs' e']. simpl in H1, H2.
  pose proof (round_nearest_even_bounds (shr_m mrs')
                (loc_of_shr_record mrs')) as Hr.
  set (m1 := round_nearest_even (shr_m mrs') (loc_of_shr_record mrs')) in *.
  assert (Hpow : 2 ^ (k + 1) = 2 * 2 ^ k)
    by (rewrite Z.pow_add_r by lia; lia).
  destruct (shr_fexp_bounds m1 e' loc_Exact (k + 1) (k + E - 53))
    as [H3 H4]; try lia.
  destruct (shr_fexp prec emax m1 e' loc_Exact) as [mrs'' e''].
  simpl in H3, H4.
  destruct (shr_m mrs'') as [|p|p] eqn:Hp; [exact I | | lia].
  replace (e'' <=? emax - prec) with true
    by (symmetry; apply Z.leb_le; unfold emax, prec; lia).
  split; lia.
Qed.

Lemma SFdiv_core_binary_bounds (a b : positive) :
  Z.pos a < 2 ^ 63 -> Z.pos b < 2 ^ 63 ->
  let '(q, e, _) := SFdiv_core_binary prec emax (Z.pos a) 0 (Z.pos b) 0 in
  0 <= q < 2 ^ 179 /\ e <= 0.
Proof.
  intros Ha Hb. unfold SFdiv_core_binary.
  assert (Hda : 0 <= Zdigits2 (Z.pos a) <= 63) by (apply Zdigits2_le; lia).
  assert (Hdb : 0 <= Zdigits2 (Z.pos b) <= 63) by (apply Zdigits2_le; lia).
  assert (Hda1 : 1 <= Zdigits2 (Z.pos a)) by (simpl; lia).
  assert (Hdb1 : 1 <= Zdigits2 (Z.pos b)) by (simpl; lia).
  set (e' := Z.min (fexp prec emax (Zdigits2 (Z.pos a) + 0
                                    - (Zdigits2 (Z.pos b) + 0))) (0 - 0)).
  assert (He' : -115 <= e' <= 0)
    by (unfold e', fexp, emin, prec, emax; lia).
  set (m' := match 0 - 0 - e' with
             | 0 => Z.pos a
             | Z.pos _ => Z.shiftl (Z.pos a) (0 - 0 - e')
             | Z.neg _ => 0
             end).
  assert (Hm' : 0 <= m' < 2 ^ 179).
  { unfold m'. destruct (0 - 0 - e') as [|p|p] eqn:Hs.
    - split; [lia|]. apply Z.lt_trans with (2 ^ 63); [lia | reflexivity].
    - rewrite Z.shiftl_mul_pow2 by lia. split; [lia|].
      apply Z.lt_le_trans with (2 ^ 63 * 2 ^ Z.pos p).
      + apply Z.mul_lt_mono_pos_r; [apply Z.pow_pos_nonneg; lia | lia].
      + rewrite <- Z.pow_add_r by lia.
        apply Z.pow_le_mono_r; lia.
    - split; [lia | reflexivity]. }
  assert (Hq : 0 <= m' / Z.pos b <= m').
  { split; [apply Z.div_pos; lia|].
    apply Z.div_le_upper_bound; [lia|].
    assert (0 <= (Z.pos b - 1) * m') by (apply Z.mul_nonneg_nonneg; lia).
    lia. }
  unfold Z.div in Hq.
  destruct (Z.div_eucl m' (Z.pos b)) as [q r]. cbn [fst] in Hq.
  split; lia.
Qed.

(** For counts below [2^63] the percentage is computed, and lies between
    0 and 99. *)
Lemma compute_percentage_total (completed total : Z) :
  0 <= completed < 2 ^ 63 -> 0 < total < 2 ^ 63 ->
  exists n, compute_percentage completed total = Ok n /\ 0 <= n <= 99.
Proof.
  intros Hc Ht.
  assert (Hok : exists n, compute_percentage completed total = Ok n).
  { unfold compute_percentage, int_true_div.
    destruct total as [|b|b]; try lia.
    destruct completed as [|a|a]; try lia.
    - eexists. unfold float_mul_pos. rewrite float_of_100. reflexivity.
    - cbn [Z.ltb Z.compare Z.abs Z.to_pos SFdiv xorb].
      pose proof (SFdiv_core_binary_bounds a b) as Hcore.
      destruct (SFdiv_core_binary prec emax (Z.pos a) 0 (Z.pos b) 0)
        as [[mz ez] lz].
      destruct Hcore as [Hmz Hez]; try lia.
      pose proof (binary_round_aux_bounded false mz ez lz 179 0) as Hq.
      destruct (binary_round_aux prec emax false mz ez lz)
        as [s|s| |s m e]; try (exfalso; apply Hq; lia).
      + eexists. unfold float_mul_pos. rewrite float_of_100. reflexivity.
      + destruct Hq as [Hm He]; try lia.
        unfold float_mul_pos. rewrite float_of_100. cbn [SFmul].
        pose proof (binary_round_aux_bounded (xorb s false)
                      (Z.pos (m * 7036874417766400)) (e + -46) loc_Exact
                      233 207) as Hp.
        destruct (binary_round_aux prec emax (xorb s false)
                    (Z.pos (m * 7036874417766400)) (e + -46) loc_Exact)
          as [s'|s'| |s' m' e2].
        * eexists. reflexivity.
        * exfalso. apply Hp; lia.
        * exfalso. apply Hp; lia.
        * eexists. reflexivity. }
  destruct Hok as [n Hn]. exists n. split; [exact Hn|].
  apply (compute_percentage_bounds completed total); [lia | lia | exact Hn].
Qed.

Lemma states_after_first_block (P : sync_state_t -> Prop) {A : Type}
    (j : job A) s :
  preserves P j ->
  match j with Atomic upd _ => P (upd s) | _ => P s end ->
  Forall P (states j s).
Proof.
  destruct j as [a|e|upd k|cmd k|k]; simpl; intros Hj Hs;
    try (apply preserves_states; assumption); try constructor.
  - exact Hs.
  - apply preserves_states; [apply Hj | exact Hs].
Qed.

(** ** Classifying the exit code *)

Lemma startswith_lower (p s : str) :
  lower p = p -> startswith p (lower s) = prefix_ci p s.
Proof.
  revert s. induction p as [|a p IH]; intros s Hp; [reflexivity|].
  destruct s as [|b s]; [reflexivity|].
  simpl in Hp. injection Hp as Ha Hp.
  cbn [lower map startswith prefix_ci].
  fold (lower s). rewrite (IH s Hp). unfold same_letter. rewrite Ha.
  reflexivity.
Qed.

(** Searching the lowered text for a lower-case pattern is searching the
    text up to case. *)
Lemma contains_lower (p s : str) :
  lower p = p -> contains p (lower s) = contains_ci p s.
Proof.
  intros Hp. induction s as [|b s IH].
  - cbn [lower map contains contains_ci].
    rewrite <- (startswith_lower p [] Hp). reflexivity.
  - cbn [contains contains_ci].
    rewrite <- IH, <- (startswith_lower p (b :: s) Hp). reflexivity.
Qed.

Lemma classify_exit_table (code : Z) (stderr : str) :
  classify_exit code stderr [] = classifyOutcome code stderr.
Proof.
  unfold classify_exit, classifyOutcome, outcome_rows.
  rewrite contains_lower by reflexivity.
  cbn [find fst snd existsb app].
  rewrite orb_false_r.
  rewrite (Z.eqb_sym code 0), (Z.eqb_sym code 3), (Z.eqb_sym code 11),
    (Z.eqb_sym code 23), (Z.eqb_sym code 24).
  destruct (0 =? code); [reflexivity|].
  destruct (3 =? code); [reflexivity|].
  destruct (11 =? code); [reflexivity|].
  destruct (23 =? code); [reflexivity|].
  destruct (24 =? code); reflexivity.
Qed.

(** C2. For every exit code and every error text, the status, the message
    and the warnings the job body computes are those of the outcome table:
    the rows for 0, 3, 11, 23 and 24, the case-insensitive test on the error
    text for 11, and the default row with the code in the message. *)
Theorem C2_exit_code_table :
  (forall code stderr,
      classify_exit code stderr [] = classifyOutcome code stderr)
  /\ (forall stderr,
        classify_exit 0 stderr [] = (lit "success", lit "Sync completed", []))
  /\ (forall stderr,
        classify_exit 3 stderr [] = (lit "failed", lit "Permission denied", []))
  /\ (forall stderr,
        classify_exit 11 stderr []
        = (lit "failed",
           if contains_ci (lit "no space left") stderr
           then lit "Disk full" else lit "Disk I/O error", []))
  /\ classify_exit 11 (lit "rsync: write failed: No space left on device (28)") []
     = (lit "failed", lit "Disk full", [])
  /\ classify_exit 11 (lit "rsync: read error: Input/output error (5)") []
     = (lit "failed", lit "Disk I/O error", [])
  /\ (forall stderr,
        classify_exit 23 stderr []
        = (lit "warning", lit "Partial transfer - some files failed",
           [lit "Some files had errors"]))
  /\ (forall stderr,
        classify_exit 24 stderr []
        = (lit "warning", lit "Files vanished during sync",
           [lit "Some files were deleted during sync"]))
  /\ (forall code stderr,
        ~ In code [0; 3; 11; 23; 24] ->
        classify_exit code stderr []
        = (lit "failed", lit "Rsync failed with code " ++ str_of_int code, []))
  /\ (forall stderr,
        classify_exit 99 stderr []
        = (lit "failed", lit "Rsync failed with code 99", [])).
Proof.
  split; [exact classify_exit_table|].
  repeat split; intros; rewrite classify_exit_table; try reflexivity.
  unfold classifyOutcome, outcome_rows. cbn [find fst snd].
  assert (E : forall k, In k [0; 3; 11; 23; 24] -> (k =? code) = false).
  { intros k Hk. apply Z.eqb_neq. intros ->. contradiction. }
  rewrite !E by (simpl; tauto). reflexivity.
Qed.

Lemma C2_exit_code_table_witness :
  classify_exit (-9) (lit "killed") []
  = (lit "failed", lit "Rsync failed with code -9", []).
Proof.
  apply (proj1 (proj2 (proj2 (proj2 (proj2 (proj2 (proj2 (proj2 (proj2
          C2_exit_code_table))))))))).
  simpl. intros H. repeat (destruct H as [H|H]; [discriminate H|]). exact H.
Defined.

(** ** The transferred count *)

Lemma scan_line_inert (line : str) :
  contains transferred_label line = false \/ line_count line = None ->
  forall n, scan_line n line = n.
Proof.
  intros [H|H] n; unfold scan_line; rewrite H; [reflexivity|].
  destruct (contains transferred_label line); reflexivity.
Qed.

Lemma scan_line_parsed (line : str) (n : Z) :
  contains transferred_label line = true -> line_count line = Some n ->
  forall m, scan_line m line = n.
Proof. intros H1 H2 m. unfold scan_line. rewrite H1, H2. reflexivity. Qed.

Lemma fold_scan_inert (lines : list str) :
  (forall l, In l lines ->
             contains transferred_label l = false \/ line_count l = None) ->
  forall n, fold_left scan_line lines n = n.
Proof.
  induction lines as [|l lines IH]; intros H n; [reflexivity|].
  cbn [fold_left]. rewrite scan_line_inert by (apply H; left; reflexivity).
  apply IH. intros l' Hl'. apply H. right. exact Hl'.
Qed.

(** C8. The transferred count is 0 when no line of the output holds the
    label; when lines hold it, the count is the integer of the last such
    line whose field after the first colon parses; a line that parses
    overwrites whatever was there, a line that does not parse (or lacks
    the label) leaves it. *)
Theorem C8_last_parsed_count_wins :
  (forall output,
      (forall l, In l (split "010" output) ->
                 contains transferred_label l = false) ->
      extract_files_transferred output = 0)
  /\ (forall output before line after n,
        split "010" output = before ++ line :: after ->
        contains transferred_label line = true ->
        line_count line = Some n ->
        (forall l, In l after ->
                   contains transferred_label l = true ->
                   line_count l = None) ->
        extract_files_transferred output = n)
  /\ (forall output,
        (forall l, In l (split "010" output) ->
                   contains transferred_label l = true ->
                   line_count l = None) ->
        extract_files_transferred output = 0)
  /\ (forall line n m,
        contains transferred_label line = true ->
        line_count line = Some n ->
        scan_line m line = n)
  /\ (forall line m,
        contains transferred_label line = true ->
        line_count line = None ->
        scan_line m line = m).
Proof.
  assert (Hinert : forall lines,
             (forall l, In l lines -> contains transferred_label l = true ->
                        line_count l = None) ->
             forall l, In l lines ->
                       contains transferred_label l = false
                       \/ line_count l = None).
  { intros lines H l Hl.
    destruct (contains transferred_label l) eqn:E; [right|left; reflexivity].
    apply H; [exact Hl | exact E]. }
  split.
  { intros output H. unfold extract_files_transferred.
    apply fold_scan_inert. intros l Hl. left. apply H, Hl. }
  split.
  { intros output before line after n Hsplit Hlabel Hcount Hafter.
    unfold extract_files_transferred. rewrite Hsplit, fold_left_app.
    cbn [fold_left]. rewrite (scan_line_parsed line n Hlabel Hcount).
    apply fold_scan_inert, Hinert, Hafter. }
  split.
  { intros output H. unfold extract_files_transferred.
    apply fold_scan_inert, Hinert, H. }
  split.
  { intros line n m H1 H2. apply scan_line_parsed; assumption. }
  intros line m H1 H2. apply scan_line_inert. right. exact H2.
Qed.

Lemma C8_last_parsed_count_wins_witness :
  extract_files_transferred (lit "sent 10 bytes" ++ nl) = 0
  /\ extract_files_transferred summary_output = 7
  /\ extract_files_transferred
       (lit "Number of regular files transferred: 1,234" ++ nl) = 0
  /\ scan_line 3 (lit "Number of regular files transferred: 7") = 7
  /\ scan_line 7 (lit "Number of regular files transferred: 1,234") = 7.
Proof.
  destruct C8_last_parsed_count_wins as [H0 [Hlast [Hnone [Hset Hkeep]]]].
  split.
  { apply H0. simpl. intros l [<-|[<-|[]]]; reflexivity. }
  split.
  { apply (Hlast summary_output
                 [lit "Number of regular files transferred: 3"]
                 (lit "Number of regular files transferred: 7")
                 [lit "Number of regular files transferred: 1,234"; []] 7).
    - reflexivity.
    - reflexivity.
    - reflexivity.
    - simpl. intros l [<-|[<-|[]]] _; reflexivity. }
  split.
  { apply Hnone. simpl. intros l [<-|[<-|[]]] _; reflexivity. }
  split.
  { apply Hset; reflexivity. }
  apply Hkeep; reflexivity.
Defined.

(** ** The current file *)

Lemma progress_block_current_file ls completed total s p :
  progress s = Some p ->
  option_map current_file
    (progress (fst (progress_block ls completed total s)))
  = Some (Some (slice_to 100 ls)).
Proof.
  intros Hp. unfold progress_block. rewrite Hp.
  destruct (total >? 0); [destruct (compute_percentage completed total)|];
    reflexivity.
Qed.

(** C9. For a line that counts as an item, the progress block the loop
    runs stores the stripped line cut to its first 100 characters: at most
    100 characters, and exactly 100 when the stripped line is longer. *)
Theorem C9_current_file_truncated :
  forall total err completed line rest s p,
    is_item_line line = true ->
    progress s = Some p ->
    exists s1 later,
      states (stdout_loop total err completed (line :: rest)) s = s1 :: later
      /\ s1 = fst (progress_block (strip line) (completed + 1) total s)
      /\ option_map current_file (progress s1)
         = Some (Some (firstn 100 (strip line)))
      /\ (List.length (firstn 100 (strip line)) <= 100)%nat
      /\ ((100 < List.length (strip line))%nat ->
          List.length (firstn 100 (strip line)) = 100%nat).
Proof.
  intros total err completed line rest s p Hitem Hp.
  unfold is_item_line in Hitem. cbn [stdout_loop]. rewrite Hitem.
  rewrite states_bind. cbn [locked states app fst].
  eexists. eexists. split; [reflexivity|].
  split; [reflexivity|].
  split; [exact (progress_block_current_file _ _ _ _ _ Hp)|].
  split; [apply firstn_le_length|].
  intros Hlen. apply firstn_length_le. lia.
Qed.

Lemma C9_current_file_truncated_witness :
  exists s1 later,
    states (stdout_loop 1 None 0 [long_line]) running_state = s1 :: later
    /\ s1 = fst (progress_block (strip long_line) (0 + 1) 1 running_state)
    /\ option_map current_file (progress s1)
       = Some (Some (firstn 100 (strip long_line)))
    /\ (List.length (firstn 100 (strip long_line)) <= 100)%nat
    /\ ((100 < List.length (strip long_line))%nat ->
        List.length (firstn 100 (strip long_line)) = 100%nat).
Proof.
  apply (C9_current_file_truncated 1 None 0 long_line [] running_state
           (mkProgress (lit "running") (now_first healthy_world) None 0 1 0)).
  - vm_compute. reflexivity.
  - reflexivity.
Defined.

(** ** The start operation *)

Lemma sync_folders_running w s :
  is_running s = true ->
  outcome (sync_folders w) s
  = Err (mkExn (HTTPException 409) (lit "Sync already in progress"))
  /\ scheduled (sync_folders w) s = 0%nat
  /\ spawned (sync_folders w) s = []
  /\ states (sync_folders w) s = [s].
Proof.
  intros Hr. unfold sync_folders.
  cbn [bind locked outcome scheduled spawned states fst snd].
  rewrite Hr. cbn. repeat split; reflexivity.
Qed.

(** C5. While [is_running] is true the start operation ends with the
    HTTP 409 error "Sync already in progress", hands no job body to the
    background tasks, and leaves the shared state as it was - on every
    machine, so also where rsync is missing or the source is not there:
    the conflict test comes first. *)
Theorem C5_conflict_while_running :
  forall w s,
    is_running s = true ->
    outcome (sync_folders w) s
    = Err (mkExn (HTTPException 409) (lit "Sync already in progress"))
    /\ scheduled (sync_folders w) s = 0%nat
    /\ final_state (sync_folders w) s = s
    /\ states (sync_folders w) s = [s].
Proof.
  intros w s Hr.
  destruct (sync_folders_running w s Hr) as [H1 [H2 [_ H4]]].
  split; [exact H1|]. split; [exact H2|].
  split; [apply read_only_final_state, read_only_sync_folders | exact H4].
Qed.

Lemma C5_conflict_while_running_witness :
  outcome (sync_folders bare_world) running_state
  = Err (mkExn (HTTPException 409) (lit "Sync already in progress"))
  /\ scheduled (sync_folders bare_world) running_state = 0%nat
  /\ final_state (sync_folders bare_world) running_state = running_state
  /\ states (sync_folders bare_world) running_state = [running_state].
Proof.
  apply (C5_conflict_while_running bare_world running_state). reflexivity.
Defined.

Lemma sync_folders_accepted w s r :
  outcome (sync_folders w) s = Ok r ->
  is_running s = false /\ scheduled (sync_folders w) s = 1%nat.
Proof.
  unfold sync_folders.
  cbn [bind locked outcome scheduled fst snd].
  destruct (is_running s); cbn; [discriminate|].
  destruct (check_rsync_available w); cbn; [|discriminate].
  destruct (source_exists w) as [[|]|e]; cbn; try discriminate.
  intros _. split; reflexivity.
Qed.

(** C10. The start operation changes the shared state on no path: each of
    its lock-protected blocks leaves the state as it found it, so the state
    after it is the state before it.  When it accepts, [is_running] was
    false and still is, and one job body has been handed over: only that
    body's first block sets [is_running]. *)
Theorem C10_start_writes_nothing :
  (forall w, read_only (sync_folders w))
  /\ (forall w s, final_state (sync_folders w) s = s)
  /\ (forall w s, Forall (eq s) (states (sync_folders w) s))
  /\ (forall w s r,
        outcome (sync_folders w) s = Ok r ->
        is_running (final_state (sync_folders w) s) = false
        /\ scheduled (sync_folders w) s = 1%nat)
  /\ (forall w s,
        is_running
          (hd s (states (run_sync_background w) s)) = true).
Proof.
  split; [exact read_only_sync_folders|].
  split; [intros; apply read_only_final_state, read_only_sync_folders|].
  split; [intros; apply read_only_states, read_only_sync_folders|].
  split.
  - intros w s r Hr.
    rewrite read_only_final_state by apply read_only_sync_folders.
    exact (sync_folders_accepted w s r Hr).
  - intros w s. reflexivity.
Qed.

Lemma C10_start_writes_nothing_witness :
  (exists r, outcome (sync_folders healthy_world) sync_state = Ok r)
  /\ is_running (final_state (sync_folders healthy_world) sync_state) = false
  /\ scheduled (sync_folders healthy_world) sync_state = 1%nat.
Proof.
  assert (H : outcome (sync_folders healthy_world) sync_state
              = Ok (mkStarted (lit "started")
                              (lit "Sync started in background")
                              (now_first healthy_world)
                              (SOURCE_DIR healthy_world)
                              (DESTINATION_DIR healthy_world)))
    by reflexivity.
  split; [eexists; exact H|].
  exact (proj1 (proj2 (proj2 (proj2 C10_start_writes_nothing)))
           healthy_world sync_state _ H).
Defined.

(** ** The job body from start to end *)

(** When the body of the outer [try] ends without exception, its last
    block was the one for the empty source or the final one. *)
Lemma job_steps_ok_idle w s :
  outcome (job_steps w) s = Ok tt -> idle (final_state (job_steps w) s).
Proof.
  unfold job_steps.
  cbn [bind locked outcome final_state fst snd].
  destruct (check_rsync_available w); cbn; [|discriminate].
  destruct (source_exists w) as [[|]|e]; cbn; try discriminate.
  destruct (source_iterdir w) as [[|x xs]|e]; cbn.
  - intros _. split; reflexivity.
  - destruct (destination_mkdir w) as [[]|e]; cbn; try discriminate.
    destruct (write_test_touch w) as [[]|e]; cbn.
    2: destruct (is_PermissionError e); cbn; discriminate.
    destruct (write_test_unlink w) as [[]|e]; cbn.
    2: destruct (is_PermissionError e); cbn; discriminate.
    destruct (lt_half (free_gb (get_disk_space w))); cbn; [discriminate|].
    destruct (popen w) as [process|e]; cbn; [|discriminate].
    rewrite outcome_bind, final_state_bind.
    destruct (outcome (stdout_loop _ _ _ _) _) as [[]|e]; [|discriminate].
    rewrite outcome_bind, final_state_bind.
    destruct (stderr_read process) as [stderr|e]; cbn; [|discriminate].
    destruct (classify_exit (returncode process) stderr []) as [[st msg] ws].
    cbn. intros _. split; reflexivity.
  - destruct (destination_mkdir w) as [[]|e']; cbn; try discriminate.
    destruct (write_test_touch w) as [[]|e']; cbn.
    2: destruct (is_PermissionError e'); cbn; discriminate.
    destruct (write_test_unlink w) as [[]|e']; cbn.
    2: destruct (is_PermissionError e'); cbn; discriminate.
    destruct (lt_half (free_gb (get_disk_space w))); cbn; [discriminate|].
    destruct (popen w) as [process|e']; cbn; [|discriminate].
    rewrite outcome_bind, final_state_bind.
    destruct (outcome (stdout_loop _ _ _ _) _) as [[]|e']; [|discriminate].
    rewrite outcome_bind, final_state_bind.
    destruct (stderr_read process) as [stderr|e']; cbn; [|discriminate].
    destruct (classify_exit (returncode process) stderr []) as [[st msg] ws].
    cbn. intros _. split; reflexivity.
Qed.

(** C3, as the code has it.  The job body always ends, lets no exception
    out, and leaves [is_running] false and [progress] absent.  When an
    exception leaves the body of the outer [try] - one that no inner
    handler caught - [last_sync] is the failed record whose message is the
    text of that exception. *)
Theorem C3_uncaught_exception_gives_failed :
  forall w s,
    outcome (run_sync_background w) s = Ok tt
    /\ idle (final_state (run_sync_background w) s)
    /\ (forall e,
          outcome (job_steps w) s = Err e ->
          last_sync (final_state (run_sync_background w) s)
          = Some {| status := lit "failed";
                    message := exn_text e;
                    timestamp := now_second w;
                    files_transferred := 0;
                    warnings := None |}).
Proof.
  intros w s. unfold run_sync_background.
  rewrite outcome_try_except, final_state_try_except.
  destruct (outcome (job_steps w) s) as [[]|e] eqn:Hout.
  - split; [reflexivity|].
    split; [exact (job_steps_ok_idle w s Hout) | discriminate].
  - split; [reflexivity|].
    split; [split; reflexivity|].
    intros e' E. injection E as <-. reflexivity.
Qed.

Lemma C3_uncaught_exception_gives_failed_witness :
  outcome (job_steps empty_source_no_rsync) sync_state
  = Err (Exception (lit "rsync not installed"))
  /\ last_sync (final_state (run_sync_background empty_source_no_rsync)
                            sync_state)
     = Some {| status := lit "failed";
               message := lit "rsync not installed";
               timestamp := now_second empty_source_no_rsync;
               files_transferred := 0;
               warnings := None |}.
Proof.
  assert (H : outcome (job_steps empty_source_no_rsync) sync_state
              = Err (Exception (lit "rsync not installed")))
    by reflexivity.
  split; [exact H|].
  exact (proj2 (proj2 (C3_uncaught_exception_gives_failed
                         empty_source_no_rsync sync_state)) _ H).
Defined.

(** An exception raised in the job body that does not end in a failed
    record: listing the source is refused, the handler around the check
    for an empty source swallows the error, rsync runs and exits with 0. *)
Lemma C3_listing_error_is_swallowed :
  source_iterdir unlistable_source_world = Err listing_denied
  /\ last_sync (final_state (run_sync_background unlistable_source_world)
                            sync_state)
     = Some {| status := lit "success";
               message := lit "Sync completed";
               timestamp := now_second unlistable_source_world;
               files_transferred := 1;
               warnings := None |}
  /\ option_map status
       (last_sync (final_state (run_sync_background unlistable_source_world)
                               sync_state))
     <> Some (lit "failed")
  /\ option_map message
       (last_sync (final_state (run_sync_background unlistable_source_world)
                               sync_state))
     <> Some (exn_text listing_denied).
Proof.
  split; [reflexivity|].
  split; [vm_compute; reflexivity|].
  split; vm_compute; discriminate.
Qed.

(** C6, as the code has it.  When rsync is installed, the source exists and
    has no entry, the job body ends without exception and without
    launching a process, after two blocks: the one that starts the run and
    the one that records success with no file transferred and the one
    warning that the source is empty. *)
Theorem C6_empty_source_short_circuit :
  forall w s,
    check_rsync_available w = true ->
    source_exists w = Ok true ->
    source_iterdir w = Ok [] ->
    outcome (run_sync_background w) s = Ok tt
    /\ spawned (run_sync_background w) s = []
    /\ final_state (run_sync_background w) s
       = {| is_running := false;
            progress := None;
            last_sync :=
              Some {| status := lit "success";
                      message := lit "Source is empty - nothing to sync";
                      timestamp := now_second w;
                      files_transferred := 0;
                      warnings := Some [lit "Source directory is empty"] |} |}.
Proof.
  intros w s Hrsync Hexists Hiter.
  unfold run_sync_background, job_steps.
  rewrite Hrsync, Hexists, Hiter. cbn. repeat split; reflexivity.
Qed.

Lemma C6_empty_source_short_circuit_witness :
  outcome (run_sync_background empty_source_world) running_state = Ok tt
  /\ spawned (run_sync_background empty_source_world) running_state = []
  /\ final_state (run_sync_background empty_source_world) running_state
     = {| is_running := false;
          progress := None;
          last_sync :=
            Some {| status := lit "success";
                    message := lit "Source is empty - nothing to sync";
                    timestamp := now_second empty_source_world;
                    files_transferred := 0;
                    warnings := Some [lit "Source directory is empty"] |} |}.
Proof.
  apply (C6_empty_source_short_circuit empty_source_world running_state);
    reflexivity.
Defined.

(** The source exists and is empty, rsync is not installed: the run ends
    with a failed record, not with the success of the empty source. *)
Lemma C6_empty_source_without_rsync_fails :
  source_exists empty_source_no_rsync = Ok true
  /\ source_iterdir empty_source_no_rsync = Ok []
  /\ spawned (run_sync_background empty_source_no_rsync) sync_state = []
  /\ final_state (run_sync_background empty_source_no_rsync) sync_state
     = {| is_running := false;
          progress := None;
          last_sync :=
            Some {| status := lit "failed";
                    message := lit "rsync not installed";
                    timestamp := now_second empty_source_no_rsync;
                    files_transferred := 0;
                    warnings := None |} |}
  /\ option_map status
       (last_sync (final_state (run_sync_background empty_source_no_rsync)
                               sync_state))
     <> Some (lit "success").
Proof.
  split; [reflexivity|].
  split; [reflexivity|].
  split; [reflexivity|].
  split; [reflexivity|].
  vm_compute. discriminate.
Qed.

(** * Further properties of the code *)

(** ** Counting the files of the source *)

Lemma count_source_files_from_eq (items : list (result bool)) :
  forall count,
    count_source_files_from count items
    = count + Z.of_nat (count_occ bool_dec (before_error items) true).
Proof.
  induction items as [|[[|]|e] rest IH]; intros count;
    cbn [count_source_files_from before_error count_occ].
  - lia.
  - rewrite IH. destruct (bool_dec true true); [|contradiction]. lia.
  - rewrite IH. destruct (bool_dec false true); [discriminate|]. lia.
  - lia.
Qed.

Lemma before_error_length (items : list (result bool)) :
  (List.length (before_error items) <= List.length items)%nat.
Proof.
  induction items as [|[b|e] rest IH]; simpl; lia.
Qed.

(** X1. [count_source_files] returns the number of items that are files
    among those listed before the first exception, which it swallows: at
    least 0, at most the number of items listed, and all the files when
    nothing raises. *)
Theorem X1_count_source_files :
  forall items,
    count_source_files items
    = Z.of_nat (count_occ bool_dec (before_error items) true)
    /\ 0 <= count_source_files items <= Z.of_nat (List.length items)
    /\ (forall bs, items = map Ok bs ->
                   count_source_files items
                   = Z.of_nat (count_occ bool_dec bs true))
    /\ (forall bs e rest, items = map Ok bs ++ Err e :: rest ->
                          count_source_files items
                          = Z.of_nat (count_occ bool_dec bs true)).
Proof.
  intros items.
  assert (E : count_source_files items
              = Z.of_nat (count_occ bool_dec (before_error items) true)).
  { unfold count_source_files. rewrite count_source_files_from_eq. lia. }
  assert (Hmap : forall bs tl,
             (tl = [] \/ exists e rest, tl = Err e :: rest) ->
             before_error (map Ok bs ++ tl) = bs).
  { intros bs tl Htl. induction bs as [|b bs IH]; simpl.
    - destruct Htl as [->|[e [rest ->]]]; reflexivity.
    - rewrite IH. reflexivity. }
  split; [exact E|]. split.
  - rewrite E. pose proof (count_occ_bound bool_dec true (before_error items)).
    pose proof (before_error_length items). lia.
  - split.
    + intros bs ->. rewrite E.
      rewrite <- (app_nil_r (map Ok bs)), Hmap by (left; reflexivity).
      reflexivity.
    + intros bs e rest ->. rewrite E, Hmap by (right; eauto). reflexivity.
Qed.

Lemma X1_count_source_files_witness :
  count_source_files [Ok true; Ok false; Ok true] = 2
  /\ count_source_files [Ok true; Err listing_denied; Ok true] = 1.
Proof.
  destruct (X1_count_source_files [Ok true; Ok false; Ok true])
    as [_ [_ [Hall _]]].
  destruct (X1_count_source_files [Ok true; Err listing_denied; Ok true])
    as [_ [_ [_ Hcut]]].
  split.
  - exact (Hall [true; false; true] eq_refl).
  - exact (Hcut [true] listing_denied [Ok true] eq_refl).
Defined.

(** ** White space around a line *)

Lemma lstrip_spaces (ws s : str) :
  forallb isspace ws = true -> lstrip (ws ++ s) = lstrip s.
Proof.
  induction ws as [|c ws IH]; intros H; [reflexivity|].
  simpl in H. apply andb_prop in H. destruct H as [Hc Hws].
  simpl. rewrite Hc. apply IH, Hws.
Qed.

Lemma lstrip_app_cons (s t : str) (c : ascii) (r : str) :
  lstrip s = c :: r -> lstrip (s ++ t) = (c :: r) ++ t.
Proof.
  induction s as [|a s IH]; simpl; [discriminate|].
  destruct (isspace a); [exact IH|].
  intros E. injection E as -> ->. reflexivity.
Qed.

Lemma rstrip_spaces (s ws : str) :
  forallb isspace ws = true -> rstrip (s ++ ws) = rstrip s.
Proof.
  intros H. unfold rstrip. rewrite rev_app_distr, lstrip_spaces; [reflexivity|].
  rewrite forallb_forall in *. intros x Hx. apply H, in_rev. exact Hx.
Qed.

Lemma strip_spaces (pre line post : str) :
  forallb isspace pre = true -> forallb isspace post = true ->
  strip (pre ++ line ++ post) = strip line.
Proof.
  intros Hpre Hpost. unfold strip. rewrite lstrip_spaces by exact Hpre.
  destruct (lstrip line) as [|c r] eqn:E.
  - destruct (lstrip_split line) as [ws [Hl Hws]]. rewrite E, app_nil_r in Hl.
    subst ws. rewrite <- (app_nil_r (line ++ post)), <- app_assoc.
    rewrite lstrip_spaces by exact Hws.
    rewrite lstrip_spaces by exact Hpost. reflexivity.
  - rewrite (lstrip_app_cons line post c r E).
    apply rstrip_spaces, Hpost.
Qed.

(** X2. White space before and after a line changes neither whether the
    loop counts it nor the name it stores: the line feed every line of the
    child ends with, a carriage return, indentation. *)
Theorem X2_surrounding_space_ignored :
  forall pre line post,
    forallb isspace pre = true -> forallb isspace post = true ->
    is_item_line (pre ++ line ++ post) = is_item_line line
    /\ (forall completed total s,
           progress_block (strip (pre ++ line ++ post)) completed total s
           = progress_block (strip line) completed total s).
Proof.
  intros pre line post Hpre Hpost.
  unfold is_item_line. rewrite (strip_spaces pre line post Hpre Hpost).
  split; reflexivity.
Qed.

Lemma X2_surrounding_space_ignored_witness :
  is_item_line (lit "  " ++ lit "a/b.txt" ++ ["013"%char; "010"%char])
  = is_item_line (lit "a/b.txt").
Proof.
  apply (X2_surrounding_space_ignored (lit "  ") (lit "a/b.txt")
           ["013"%char; "010"%char]); reflexivity.
Defined.

(** ** What [int()] accepts *)

Lemma skip_int_space_split (s : str) :
  exists ws, s = ws ++ skip_int_space s /\ forallb int_space ws = true.
Proof.
  induction s as [|c s IH]; simpl.
  - exists []. split; reflexivity.
  - destruct (int_space c) eqn:Hc.
    + destruct IH as [ws [E F]]. exists (c :: ws). simpl. rewrite Hc, F.
      split; [f_equal; exact E | reflexivity].
    + exists []. split; reflexivity.
Qed.

Lemma scan_digits_split (s : str) :
  forall prev acc n v m rest,
    scan_digits prev acc n s = Some (v, m, rest) ->
    exists ds, s = ds ++ rest
               /\ forallb (fun c => is_digit c || is_underscore c) ds = true.
Proof.
  induction s as [|c s IH]; intros prev acc n v m rest; simpl.
  - destruct prev; [discriminate|]. intros E. injection E as _ _ <-.
    exists []. split; reflexivity.
  - destruct (is_digit c) eqn:Hd.
    + intros E. destruct (IH _ _ _ _ _ _ E) as [ds [-> F]].
      exists (c :: ds). simpl. rewrite Hd, F. split; reflexivity.
    + destruct (is_underscore c) eqn:Hu.
      * destruct prev; [discriminate|].
        intros E. destruct (IH _ _ _ _ _ _ E) as [ds [-> F]].
        exists (c :: ds). simpl. rewrite Hd, Hu, F. split; reflexivity.
      * destruct prev; [discriminate|]. intros E. injection E as _ _ <-.
        exists []. split; reflexivity.
Qed.

Lemma int_char_of_space c : int_space c = true -> int_char c = true.
Proof. unfold int_char. intros ->. reflexivity. Qed.

Lemma int_char_of_digit c :
  is_digit c || is_underscore c = true -> int_char c = true.
Proof.
  unfold int_char. intros H. apply orb_prop in H. destruct H as [-> | ->];
    rewrite ?orb_true_r; reflexivity.
Qed.

Lemma forallb_impl {A : Type} (f g : A -> bool) (l : list A) :
  (forall x, f x = true -> g x = true) ->
  forallb f l = true -> forallb g l = true.
Proof.
  intros Hfg. rewrite !forallb_forall. intros H x Hx. apply Hfg, H, Hx.
Qed.

(** A string [int()] turns into a number holds nothing but digits,
    underscores, signs and white space. *)
Lemma int_of_str_chars (s : str) (v : Z) :
  int_of_str s = Some v -> forallb int_char s = true.
Proof.
  unfold int_of_str.
  destruct (skip_int_space_split s) as [ws [Es Hws]].
  destruct (take_sign (skip_int_space s)) as [neg s1] eqn:Hsign.
  assert (Hs1 : forallb int_char s1 = true -> forallb int_char s = true).
  { intros H1. rewrite Es, forallb_app.
    rewrite (forallb_impl _ _ _ int_char_of_space Hws). simpl.
    unfold take_sign in Hsign.
    destruct (skip_int_space s) as [|c r]; [injection Hsign as _ <-; exact H1|].
    destruct (ord c =? 43)%N eqn:Hplus.
    { injection Hsign as _ <-. simpl. rewrite H1. unfold int_char.
      rewrite Hplus, !orb_true_r. reflexivity. }
    destruct (ord c =? 45)%N eqn:Hminus.
    { injection Hsign as _ <-. simpl. rewrite H1. unfold int_char.
      rewrite Hminus, !orb_true_r. reflexivity. }
    injection Hsign as _ <-. exact H1. }
  destruct s1 as [|c r]; [discriminate|].
  destruct (is_underscore c); [discriminate|].
  destruct (scan_digits false 0 0 (c :: r)) as [[[v' n] rest]|] eqn:Hscan;
    [|discriminate].
  destruct (n =? 0)%nat; [discriminate|].
  destruct (int_max_str_digits <? n)%nat; [discriminate|].
  destruct (skip_int_space rest) as [|x xs] eqn:Hrest; [|discriminate].
  intros _. apply Hs1.
  destruct (scan_digits_split _ _ _ _ _ _ _ Hscan) as [ds [-> Hds]].
  destruct (skip_int_space_split rest) as [ws' [Er Hws']].
  rewrite Hrest, app_nil_r in Er. subst ws'.
  rewrite forallb_app, (forallb_impl _ _ _ int_char_of_digit Hds),
    (forallb_impl _ _ _ int_char_of_space Hws').
  reflexivity.
Qed.

Lemma strip_keeps (s : str) (c : ascii) :
  In c s -> isspace c = false -> In c (strip s).
Proof.
  intros Hin Hc. unfold strip.
  destruct (lstrip_split s) as [ws [Es Hws]].
  destruct (rstrip_split (lstrip s)) as [ws' [El Hws']].
  rewrite Es, El in Hin.
  rewrite forallb_forall in Hws, Hws'.
  apply in_app_or in Hin. destruct Hin as [Hin|Hin].
  { rewrite (Hws c Hin) in Hc. discriminate. }
  apply in_app_or in Hin. destruct Hin as [Hin|Hin]; [exact Hin|].
  rewrite (Hws' c Hin) in Hc. discriminate.
Qed.

Lemma startswith_in (p s : str) (c : ascii) :
  startswith p s = true -> In c p -> In c s.
Proof.
  revert s. induction p as [|a p IH]; intros s H Hin; [contradiction|].
  destruct s as [|b s]; [discriminate|].
  cbn [startswith] in H. apply andb_prop in H. destruct H as [Hab Hp].
  apply Ascii.eqb_eq in Hab. subst b.
  destruct Hin as [<-|Hin]; [left; reflexivity | right; exact (IH s Hp Hin)].
Qed.

Lemma contains_in (p s : str) (c : ascii) :
  contains p s = true -> In c p -> In c s.
Proof.
  intros H Hin. induction s as [|b s IH]; cbn [contains] in H.
  - apply orb_prop in H. destruct H as [H|H]; [|discriminate].
    exact (startswith_in p [] c H Hin).
  - apply orb_prop in H. destruct H as [H|H].
    + exact (startswith_in p (b :: s) c H Hin).
    + right. exact (IH H).
Qed.

Lemma split_nonempty (sep : ascii) (s : str) : split sep s <> [].
Proof.
  destruct s as [|c s]; simpl; [discriminate|].
  destruct (Ascii.eqb c sep); [discriminate|].
  destruct (split sep s); discriminate.
Qed.

Lemma split_second (sep : ascii) (s : str) :
  In sep s -> exists field, nth_error (split sep s) 1 = Some field.
Proof.
  induction s as [|c s IH]; intros Hin; [contradiction|].
  cbn [split]. destruct (Ascii.eqb_spec c sep) as [->|Hne].
  - pose proof (split_nonempty sep s) as Hs.
    destruct (split sep s) as [|f fs]; [contradiction|].
    exists f. reflexivity.
  - destruct Hin as [->|Hin]; [contradiction Hne; reflexivity|].
    destruct (IH Hin) as [field Hf].
    destruct (split sep s) as [|f fs]; [discriminate|].
    exists field. exact Hf.
Qed.

(** X3. A line that holds the label always has a field after its first
    colon, so the [IndexError] handler never runs for it; and when that
    field holds a character that is neither white space nor a digit, an
    underscore or a sign - the comma of "1,234", a letter, a dot - the line
    leaves the count as it is. *)
Theorem X3_unparsed_field_keeps_count :
  forall line,
    (contains transferred_label line = true ->
     exists field, nth_error (split ":" line) 1 = Some field)
    /\ (forall field c n,
           nth_error (split ":" line) 1 = Some field ->
           In c field -> isspace c = false -> int_char c = false ->
           line_count line = None /\ scan_line n line = n).
Proof.
  intros line. split.
  - intros H. apply split_second.
    apply (contains_in transferred_label line ":" H).
    unfold transferred_label, lit. simpl. tauto.
  - intros field c n Hf Hin Hsp Hic.
    assert (Hnone : line_count line = None).
    { unfold line_count. rewrite Hf.
      destruct (int_of_str (strip field)) as [v|] eqn:E; [|reflexivity].
      apply int_of_str_chars in E. rewrite forallb_forall in E.
      rewrite (E c (strip_keeps field c Hin Hsp)) in Hic. discriminate. }
    split; [exact Hnone|].
    unfold scan_line. rewrite Hnone.
    destruct (contains transferred_label line); reflexivity.
Qed.

Lemma X3_unparsed_field_keeps_count_witness :
  (exists field,
      nth_error (split ":" (lit "Number of regular files transferred: 1,234"))
                1 = Some field)
  /\ line_count (lit "Number of regular files transferred: 1,234") = None
  /\ scan_line 5 (lit "Number of regular files transferred: 1,234") = 5.
Proof.
  destruct (X3_unparsed_field_keeps_count
              (lit "Number of regular files transferred: 1,234"))
    as [Hfield Hkeep].
  split; [apply Hfield; reflexivity|].
  apply (Hkeep (lit " 1,234") ","%char 5).
  - reflexivity.
  - simpl. tauto.
  - reflexivity.
  - reflexivity.
Defined.

(** ** The classification, read as a whole *)

(** X4. The classification reports success for exit code 0 only, a warning
    for 23 and 24 only, and adds a warning to the list exactly when the
    status is "warning"; every other code, the negative codes of a child
    killed by a signal among them, is a failure. *)
Theorem X4_status_by_exit_code :
  forall code stderr warns,
    let '(st, msg, warns') := classify_exit code stderr warns in
    (st = lit "success" <-> code = 0)
    /\ (st = lit "warning" <-> code = 23 \/ code = 24)
    /\ (st = lit "failed" <-> code <> 0 /\ code <> 23 /\ code <> 24)
    /\ (warns' <> warns <-> st = lit "warning")
    /\ (st <> lit "warning" -> warns' = warns).
Proof.
  intros code stderr warns. unfold classify_exit. cbn [existsb].
  rewrite orb_false_r.
  assert (Happ : forall x : str, warns ++ [x] <> warns).
  { intros x E. apply (f_equal (@List.length str)) in E.
    rewrite length_app in E. simpl in E. lia. }
  destruct (Z.eqb_spec code 0) as [->|H0];
    [|destruct (Z.eqb_spec code 3) as [->|H3];
      [|destruct (Z.eqb_spec code 11) as [->|H11];
        [|destruct (Z.eqb_spec code 23) as [->|H23];
          [|destruct (Z.eqb_spec code 24) as [->|H24]]]]];
    repeat split; intros; try lia; try discriminate; try reflexivity;
    try (exfalso; eapply Happ; eassumption); try apply Happ;
    try congruence; try tauto.
Qed.

Lemma X4_status_by_exit_code_witness :
  let '(st, msg, warns') := classify_exit (-9) (lit "Killed") [] in
  st = lit "failed" /\ warns' = [].
Proof.
  pose proof (X4_status_by_exit_code (-9) (lit "Killed") []) as H.
  destruct (classify_exit (-9) (lit "Killed") []) as [[st msg] warns'].
  destruct H as [_ [_ [Hfailed [_ Hkeep]]]].
  assert (Hst : st = lit "failed") by (apply Hfailed; lia).
  split; [exact Hst|]. apply Hkeep. rewrite Hst. discriminate.
Defined.

(** ** The shape of a run *)

Lemma preserves_final_state (P : sync_state_t -> Prop) {A : Type}
    (j : job A) s :
  preserves P j -> P s -> P (final_state j s).
Proof.
  revert s. induction j as [a|e|upd k IH|cmd k IH|k IH]; intros s Hj Hs;
    simpl in *; auto.
  destruct Hj as [H1 H2]. apply IH; auto.
Qed.

Lemma running_snapshot_start w s :
  running_snapshot w s
    (start_block (count_source_files (source_rglob w)) (now_first w) s).
Proof.
  split; [reflexivity|]. split; [reflexivity|].
  eexists. split; [reflexivity|]. repeat split; reflexivity.
Qed.

Lemma running_snapshot_progress_block w s0 ls completed total st :
  running_snapshot w s0 st ->
  running_snapshot w s0 (fst (progress_block ls completed total st)).
Proof.
  intros [Hr [Hl [p [Hp [H1 [H2 H3]]]]]].
  unfold progress_block. rewrite Hp.
  destruct (total >? 0); [destruct (compute_percentage completed total)|];
    (split; [exact Hr|]; split; [exact Hl|];
     eexists; split; [reflexivity|]; repeat split; assumption).
Qed.

Lemma running_snapshot_loop w s0 total err lines completed st :
  0 <= completed ->
  running_snapshot w s0 st ->
  Forall (running_snapshot w s0)
         (states (stdout_loop total err completed lines) st)
  /\ running_snapshot w s0
       (final_state (stdout_loop total err completed lines) st).
Proof.
  intros Hc Hst.
  assert (Hp : preserves (running_snapshot w s0)
                         (stdout_loop total err completed lines)).
  { apply preserves_stdout_loop; [|exact Hc].
    intros. apply running_snapshot_progress_block. assumption. }
  split; [apply preserves_states | apply preserves_final_state]; assumption.
Qed.

(** The body of the outer [try]: while it runs every block leaves a
    running snapshot; it ends idle with a result when it ends without
    exception, and still running when an exception leaves it. *)
Lemma job_steps_shape w s :
  exists pre,
    pre <> [] /\ Forall (running_snapshot w s) pre /\
    match outcome (job_steps w) s with
    | Ok _ => exists fin, states (job_steps w) s = pre ++ [fin]
                          /\ idle fin /\ last_sync fin <> None
    | Err _ => states (job_steps w) s = pre
    end.
Proof.
  pose proof (running_snapshot_start w s) as Hstart.
  set (s1 := start_block (count_source_files (source_rglob w))
                         (now_first w) s) in *.
  assert (Hone : exists pre, pre <> [] /\ Forall (running_snapshot w s) pre
                             /\ [s1] = pre).
  { exists [s1]. split; [discriminate|]. split; [|reflexivity].
    constructor; [exact Hstart | constructor]. }
  unfold job_steps.
  cbn [bind locked outcome states fst snd]. fold s1.
  destruct (check_rsync_available w); cbn [negb bind outcome states];
    [|exact Hone].
  destruct (source_exists w) as [[|]|e];
    cbn [call negb bind outcome states]; try exact Hone.
  assert (Hrest :
    forall k : job unit,
      k = (call (destination_mkdir w) ;;
           try_except (call (write_test_touch w) ;;
                       call (write_test_unlink w))
             (fun e => if is_PermissionError e
                       then Raise (Exception
                                     (lit "Cannot write to destination: "
                                        ++ DESTINATION_DIR w))
                       else Raise e) ;;
           (if lt_half (free_gb (get_disk_space w))
            then Raise (Exception
                          (lit "Low disk space: only "
                             ++ number_str w (free_gb (get_disk_space w))
                             ++ lit "GB free"))
            else Ret tt) ;;
           process <- Spawn (rsync_cmd w) (call (popen w)) ;;
           stdout_loop (count_source_files (source_rglob w))
                       (stdout_error process) 0 (stdout_lines process) ;;
           stderr <- call (stderr_read process) ;;
           (let '(st, msg, warnings) :=
              classify_exit (returncode process) stderr [] in
            locked (fun s =>
                      (finish_block st msg (now_second w)
                         (extract_files_transferred
                            (List.concat (stdout_lines process) ++ stderr))
                         warnings s, None)))) ->
      exists pre,
        pre <> [] /\ Forall (running_snapshot w s) pre /\
        match outcome k s1 with
        | Ok _ => exists fin, s1 :: states k s1 = pre ++ [fin]
                              /\ idle fin /\ last_sync fin <> None
        | Err _ => s1 :: states k s1 = pre
        end).
  { intros k ->.
    destruct (destination_mkdir w) as [[]|e];
      cbn [call bind outcome states]; [|exact Hone].
    destruct (write_test_touch w) as [[]|e];
      cbn [call bind try_except outcome states].
    2: destruct (is_PermissionError e); cbn [bind outcome states];
       exact Hone.
    destruct (write_test_unlink w) as [[]|e];
      cbn [call bind try_except outcome states].
    2: destruct (is_PermissionError e); cbn [bind outcome states];
       exact Hone.
    destruct (lt_half (free_gb (get_disk_space w)));
      cbn [bind outcome states]; [exact Hone|].
    destruct (popen w) as [process|e]; cbn [call bind outcome states];
      [|exact Hone].
    rewrite outcome_bind, states_bind.
    destruct (running_snapshot_loop w s
                (count_source_files (source_rglob w))
                (stdout_error process) (stdout_lines process) 0 s1
                ltac:(lia) Hstart) as [Hloop Hfin].
    destruct (outcome (stdout_loop _ _ _ _) s1) as [[]|e].
    2: { exists (s1 :: states
                      (stdout_loop (count_source_files (source_rglob w))
                                   (stdout_error process) 0
                                   (stdout_lines process)) s1).
         rewrite app_nil_r.
         split; [discriminate|]. split; [|reflexivity].
         constructor; assumption. }
    destruct (stderr_read process) as [stderr|e];
      cbn [call bind outcome states].
    2: { exists (s1 :: states
                      (stdout_loop (count_source_files (source_rglob w))
                                   (stdout_error process) 0
                                   (stdout_lines process)) s1).
         rewrite app_nil_r.
         split; [discriminate|]. split; [|reflexivity].
         constructor; assumption. }
    destruct (classify_exit (returncode process) stderr []) as [[st msg] ws].
    cbn [locked outcome states fst snd].
    exists (s1 :: states
                 (stdout_loop (count_source_files (source_rglob w))
                              (stdout_error process) 0
                              (stdout_lines process)) s1).
    split; [discriminate|]. split; [constructor; assumption|].
    eexists. split; [reflexivity|].
    split; [split; reflexivity | discriminate]. }
  destruct (source_iterdir w) as [[|x xs]|e];
    cbn [call bind try_except any_path negb outcome states locked fst snd].
  - exists [s1]. split; [discriminate|].
    split; [constructor; [exact Hstart | constructor]|].
    eexists. split; [reflexivity|].
    split; [split; reflexivity | discriminate].
  - apply Hrest. reflexivity.
  - apply Hrest. reflexivity.
Qed.

Lemma last_cons_default {A : Type} (l : list A) :
  forall x d : A, last (x :: l) d = last l x.
Proof.
  induction l as [|y l IH]; intros x d; [reflexivity|].
  change (last (x :: y :: l) d) with (last (y :: l) d).
  rewrite (IH y d), (IH y x). reflexivity.
Qed.

(** The state a job ends in is the state its last block left. *)
Lemma final_state_last {A : Type} (j : job A) s :
  final_state j s = last (states j s) s.
Proof.
  revert s. induction j as [a|e|upd k IH|cmd k IH|k IH]; intros s;
    cbn [final_state states]; auto.
  rewrite IH, last_cons_default. reflexivity.
Qed.

Lemma run_sync_background_shape :
  forall w s,
  exists pre fin,
    states (run_sync_background w) s = pre ++ [fin]
    /\ pre <> []
    /\ Forall (running_snapshot w s) pre
    /\ idle fin
    /\ last_sync fin <> None
    /\ final_state (run_sync_background w) s = fin.
Proof.
  intros w s.
  assert (H : exists pre fin,
             states (run_sync_background w) s = pre ++ [fin]
             /\ pre <> [] /\ Forall (running_snapshot w s) pre
             /\ idle fin /\ last_sync fin <> None).
  { unfold run_sync_background. rewrite states_try_except.
    destruct (job_steps_shape w s) as [pre [Hne [Hpre Hout]]].
    destruct (outcome (job_steps w) s) as [[]|e].
    - destruct Hout as [fin [Hst [Hidle Hlast]]].
      exists pre, fin. rewrite Hst, app_nil_r. auto.
    - rewrite Hout. cbn [locked states fst snd].
      eexists pre, _. split; [reflexivity|].
      split; [exact Hne|]. split; [exact Hpre|].
      split; [split; reflexivity | discriminate]. }
  destruct H as [pre [fin [Hst [Hne [Hpre [Hidle Hlast]]]]]].
  exists pre, fin. repeat split; try assumption; try apply Hidle.
  rewrite final_state_last, Hst. apply last_last.
Qed.

(** X5. A job body that runs with no block of another job body in
    between writes the shared state in a row of blocks that leave it
    running - [is_running] true, the result of the run before still in
    [last_sync], the progress with the start time and the file count of
    the first block - followed by one last block that leaves the state
    idle with a result.  The row is never empty: the first block always
    runs.  ([states] lists the states the blocks of one job leave when
    nothing else writes between them.) *)
Theorem X5_run_is_running_then_idle :
  forall w s,
  exists pre fin,
    states (run_sync_background w) s = pre ++ [fin]
    /\ pre <> []
    /\ Forall (running_snapshot w s) pre
    /\ idle fin
    /\ last_sync fin <> None
    /\ final_state (run_sync_background w) s = fin.
Proof. exact run_sync_background_shape. Qed.

(** ** The loop over the child's output *)

Lemma progress_block_ok ls completed total s p :
  progress s = Some p ->
  0 <= completed < 2 ^ 63 -> 0 <= total < 2 ^ 63 ->
  exists p1,
    progress_block ls completed total s = (set_progress (Some p1) s, None)
    /\ files_completed p1 = completed
    /\ same_run p p1.
Proof.
  intros Hp Hc Ht. unfold progress_block. rewrite Hp.
  destruct (total >? 0) eqn:Hgt.
  - destruct (compute_percentage_total completed total) as [n [Hn _]];
      [lia | lia |].
    rewrite Hn. eexists. split; [reflexivity|].
    split; [reflexivity | repeat split; reflexivity].
  - eexists. split; [reflexivity|].
    split; [reflexivity | repeat split; reflexivity].
Qed.

Lemma same_run_trans p q r : same_run p q -> same_run q r -> same_run p r.
Proof.
  intros [A1 [A2 A3]] [B1 [B2 B3]]. repeat split; congruence.
Qed.

Lemma stdout_loop_counts total err lines :
  forall completed s p,
    progress s = Some p -> files_completed p = completed ->
    0 <= completed -> 0 <= total < 2 ^ 63 ->
    completed + Z.of_nat (List.length lines) < 2 ^ 63 ->
    let j := stdout_loop total err completed lines in
    outcome j s = match err with Some e => Err e | None => Ok tt end
    /\ map (fun st => option_map files_completed (progress st)) (states j s)
       = map (fun i => Some (completed + Z.of_nat i))
             (seq 1 (List.length (filter is_item_line lines)))
    /\ is_running (final_state j s) = is_running s
    /\ last_sync (final_state j s) = last_sync s
    /\ exists p', progress (final_state j s) = Some p'
                  /\ files_completed p' = completed + count_item_lines lines
                  /\ same_run p p'.
Proof.
  unfold count_item_lines.
  induction lines as [|line rest IH]; intros completed s p Hp Hfc Hc Ht Hlen;
    cbn [stdout_loop].
  - cbn [filter List.length seq map].
    split; [destruct err; reflexivity|].
    split; [destruct err; reflexivity|].
    split; [destruct err; reflexivity|].
    split; [destruct err; reflexivity|].
    exists p. split; [destruct err; exact Hp|].
    split; [simpl; lia | repeat split; reflexivity].
  - cbn [List.length] in Hlen. cbn [filter].
    change (is_item_line line) with (qualifies (strip line)).
    destruct (qualifies (strip line)) eqn:Hq.
    + destruct (progress_block_ok (strip line) (completed + 1) total s p Hp)
        as [p1 [Hblock [Hfc1 Hsame1]]]; [lia | lia |].
      cbn [bind locked outcome states final_state].
      rewrite Hblock. cbn [fst snd bind].
      set (s1 := set_progress (Some p1) s).
      destruct (IH (completed + 1) s1 p1 eq_refl Hfc1) as
        [Hout [Hmap [Hrun [Hlast [p' [Hp' [Hfc' Hsame']]]]]]];
        [lia | lia | lia |].
      split; [exact Hout|].
      split.
      { cbn [List.length seq map progress option_map]. unfold s1 at 1.
        cbn [set_progress progress option_map]. rewrite Hfc1.
        change (Z.of_nat 1) with 1. f_equal.
        rewrite Hmap, <- (seq_shift _ 1), map_map.
        apply map_ext. intros i. f_equal. lia. }
      split; [exact Hrun|]. split; [exact Hlast|].
      exists p'. split; [exact Hp'|].
      split; [cbn [List.length]; lia | exact (same_run_trans _ _ _ Hsame1 Hsame')].
    + apply (IH completed s p Hp Hfc Hc Ht). lia.
Qed.

(** X6. When the loop reads the child's output with no block of another
    job body in between, starting with a progress present and with the
    counts below 2^63, no block raises: one block runs for each line that
    counts as an item and none for the others, the n-th of them leaves
    [files_completed] at n more than before the loop, and after the loop
    [files_completed] is the number of item lines, with the start time and
    the file count of the progress as they were before the loop.  An error
    of the output stream itself is raised after the lines before it were
    counted. *)
Theorem X6_loop_counts_item_lines :
  forall total err lines completed s p,
    progress s = Some p -> files_completed p = completed ->
    0 <= completed -> 0 <= total < 2 ^ 63 ->
    completed + Z.of_nat (List.length lines) < 2 ^ 63 ->
    let j := stdout_loop total err completed lines in
    outcome j s = match err with Some e => Err e | None => Ok tt end
    /\ map (fun st => option_map files_completed (progress st)) (states j s)
       = map (fun i => Some (completed + Z.of_nat i))
             (seq 1 (List.length (filter is_item_line lines)))
    /\ is_running (final_state j s) = is_running s
    /\ last_sync (final_state j s) = last_sync s
    /\ exists p', progress (final_state j s) = Some p'
                  /\ files_completed p' = completed + count_item_lines lines
                  /\ same_run p p'.
Proof. intros. apply stdout_loop_counts; assumption. Qed.

Lemma X6_loop_counts_item_lines_witness :
  let j := stdout_loop 2 None 0
             [lit "sending incremental file list" ++ nl; lit "dir/" ++ nl;
              lit "dir/a.txt" ++ nl; nl] in
  outcome j running_state = Ok tt
  /\ map (fun st => option_map files_completed (progress st))
         (states j running_state)
     = [Some 1; Some 2]
  /\ option_map files_completed (progress (final_state j running_state))
     = Some 2.
Proof.
  destruct (X6_loop_counts_item_lines 2 None
              [lit "sending incremental file list" ++ nl; lit "dir/" ++ nl;
               lit "dir/a.txt" ++ nl; nl] 0 running_state
              (mkProgress (lit "running") (now_first healthy_world) None 0 1 0)
              eq_refl eq_refl)
    as [Hout [Hmap [_ [_ [p' [Hp' [Hfc _]]]]]]];
    [lia | split; [lia | reflexivity] | reflexivity |].
  split; [exact Hout|]. split; [exact Hmap|].
  rewrite Hp'. cbn [option_map]. rewrite Hfc. reflexivity.
Defined.

(** ** The checks before rsync is launched *)

Lemma stdout_loop_spawns_nothing total err lines :
  forall completed s, spawned (stdout_loop total err completed lines) s = [].
Proof.
  induction lines as [|line rest IH]; intros completed s; cbn [stdout_loop].
  - destruct err; reflexivity.
  - destruct (qualifies (strip line)); [|apply IH].
    rewrite spawned_bind. cbn [locked spawned app outcome].
    destruct (snd (progress_block (strip line) (completed + 1) total s));
      cbn [spawned outcome]; [reflexivity | apply IH].
Qed.

Ltac use_source_ready Hready :=
  destruct Hready as [Hrsync [Hexists Hlisted]];
  unfold run_sync_background, job_steps;
  rewrite Hrsync, Hexists;
  destruct (source_iterdir _) as [[|? ?]|?];
  [contradiction Hlisted; reflexivity | |].

(** X7. When the source is ready and the destination directory can be
    made, but making or removing the marker file raises, the run ends
    without launching rsync.  A [PermissionError] is reported as "Cannot
    write to destination: " followed by the destination, any other
    exception with its own text. *)
Theorem X7_write_probe_failure :
  forall w s e,
    source_ready w ->
    destination_mkdir w = Ok tt ->
    write_test_touch w = Err e
    \/ (write_test_touch w = Ok tt /\ write_test_unlink w = Err e) ->
    spawned (run_sync_background w) s = []
    /\ final_state (run_sync_background w) s
       = {| is_running := false;
            progress := None;
            last_sync :=
              Some (failed_result w
                      (if is_PermissionError e
                       then lit "Cannot write to destination: "
                            ++ DESTINATION_DIR w
                       else exn_text e)) |}.
Proof.
  intros w s e Hready Hmkdir Hprobe.
  use_source_ready Hready.
  all: rewrite Hmkdir.
  all: destruct Hprobe as [Htouch|[Htouch Hunlink]];
    rewrite Htouch, ?Hunlink; cbn;
    destruct (is_PermissionError e); cbn; split; reflexivity.
Qed.

Lemma X7_write_probe_failure_witness :
  spawned (run_sync_background
             (set_write_test (Err write_denied) (Ok tt) healthy_world))
          sync_state = []
  /\ final_state (run_sync_background
                    (set_write_test (Err write_denied) (Ok tt) healthy_world))
                 sync_state
     = {| is_running := false;
          progress := None;
          last_sync :=
            Some (failed_result healthy_world
                    (lit "Cannot write to destination: /srv/destination")) |}.
Proof.
  apply (X7_write_probe_failure
           (set_write_test (Err write_denied) (Ok tt) healthy_world)
           sync_state write_denied).
  - split; [reflexivity|]. split; [reflexivity | discriminate].
  - reflexivity.
  - left. reflexivity.
Defined.

Lemma get_disk_space_failed w e :
  destination_disk_usage w = Err e ->
  get_disk_space w = mkDisk 0 0 0 (NInt 0).
Proof. intros H. unfold get_disk_space. rewrite H. reflexivity. Qed.

(** X8. When the source is ready and the destination writable, a free
    space figure below 0.5 ends the run without launching rsync, with the
    message "Low disk space: only ...GB free".  This is also what happens
    when the disk cannot be asked at all: [get_disk_space] swallows the
    error and answers zeros, and the run fails with "Low disk space: only
    0GB free". *)
Theorem X8_low_disk_space_failure :
  forall w s,
    source_ready w ->
    destination_writable w ->
    (lt_half (free_gb (get_disk_space w)) = true ->
     spawned (run_sync_background w) s = []
     /\ final_state (run_sync_background w) s
        = {| is_running := false;
             progress := None;
             last_sync :=
               Some (failed_result w
                       (lit "Low disk space: only "
                          ++ number_str w (free_gb (get_disk_space w))
                          ++ lit "GB free")) |})
    /\ (forall e,
           destination_disk_usage w = Err e ->
           spawned (run_sync_background w) s = []
           /\ final_state (run_sync_background w) s
              = {| is_running := false;
                   progress := None;
                   last_sync :=
                     Some (failed_result w
                             (lit "Low disk space: only 0GB free")) |}).
Proof.
  intros w s Hready [Hmkdir [Htouch Hunlink]].
  assert (Hlow : lt_half (free_gb (get_disk_space w)) = true ->
                 spawned (run_sync_background w) s = []
                 /\ final_state (run_sync_background w) s
                    = {| is_running := false;
                         progress := None;
                         last_sync :=
                           Some (failed_result w
                                   (lit "Low disk space: only "
                                      ++ number_str w
                                           (free_gb (get_disk_space w))
                                      ++ lit "GB free")) |}).
  { intros Hlt. use_source_ready Hready.
    all: rewrite Hmkdir, Htouch, Hunlink, Hlt; cbn; split; reflexivity. }
  split; [exact Hlow|].
  intros e He. rewrite (get_disk_space_failed w e He) in Hlow.
  apply Hlow. reflexivity.
Qed.

Lemma X8_low_disk_space_failure_witness :
  final_state (run_sync_background
                 (set_disk_usage (Err disk_unknown) healthy_world))
              sync_state
  = {| is_running := false;
       progress := None;
       last_sync :=
         Some (failed_result healthy_world
                 (lit "Low disk space: only 0GB free")) |}.
Proof.
  refine (proj2 (proj2 (X8_low_disk_space_failure
                          (set_disk_usage (Err disk_unknown) healthy_world)
                          sync_state _ _)
                       disk_unknown eq_refl)).
  - split; [reflexivity|]. split; [reflexivity | discriminate].
  - split; [reflexivity|]. split; reflexivity.
Defined.

(** ** Launching rsync *)

Lemma spawned_run_sync_background w s :
  spawned (run_sync_background w) s = spawned (job_steps w) s.
Proof.
  unfold run_sync_background. rewrite spawned_try_except.
  destruct (outcome (job_steps w) s); cbn; apply app_nil_r.
Qed.

Lemma rsync_launch_condition :
  forall w s,
    (spawned (run_sync_background w) s = []
     \/ spawned (run_sync_background w) s = [rsync_cmd w])
    /\ (spawned (run_sync_background w) s = [rsync_cmd w]
        <-> source_ready w /\ destination_writable w
            /\ lt_half (free_gb (get_disk_space w)) = false).
Proof.
  intros w s. rewrite spawned_run_sync_background.
  unfold source_ready, destination_writable, job_steps.
  assert (Hno : forall P : Prop,
             ~ P ->
             (@nil (list str) = [] \/ @nil (list str) = [rsync_cmd w])
             /\ (@nil (list str) = [rsync_cmd w] <-> P)).
  { intros P HP. split; [left; reflexivity|].
    split; [discriminate | intros H; contradiction]. }
  cbn [bind locked spawned outcome fst snd].
  destruct (check_rsync_available w); cbn [negb bind spawned outcome].
  2: { apply Hno. intros [[H _] _]. discriminate. }
  destruct (source_exists w) as [[|]|e]; cbn [call negb bind spawned outcome].
  2: { apply Hno. intros [[_ [H _]] _]. discriminate. }
  2: { apply Hno. intros [[_ [H _]] _]. discriminate. }
  destruct (source_iterdir w) as [[|x xs]|e] eqn:Hiter;
    cbn [call bind try_except any_path negb spawned outcome locked fst snd].
  { apply Hno. intros [[_ [_ H]] _]. contradiction H. reflexivity. }
  all: destruct (destination_mkdir w) as [[]|e1];
    cbn [call bind spawned outcome];
    [|apply Hno; intros [_ [[H _] _]]; discriminate].
  all: destruct (write_test_touch w) as [[]|e2];
    cbn [call bind try_except spawned outcome];
    [|destruct (is_PermissionError e2); cbn [bind spawned outcome];
      apply Hno; intros [_ [[_ [H _]] _]]; discriminate].
  all: destruct (write_test_unlink w) as [[]|e3];
    cbn [call bind try_except spawned outcome];
    [|destruct (is_PermissionError e3); cbn [bind spawned outcome];
      apply Hno; intros [_ [[_ [_ H]] _]]; discriminate].
  all: destruct (lt_half (free_gb (get_disk_space w)));
    cbn [bind spawned outcome];
    [apply Hno; intros [_ [_ H]]; discriminate|].
  all: assert (Hyes : forall l : list (list str),
                  l = [] ->
                  (rsync_cmd w :: l = [] \/ rsync_cmd w :: l = [rsync_cmd w])
                  /\ (rsync_cmd w :: l = [rsync_cmd w]
                      <-> (true = true /\ Ok true = Ok true
                           /\ source_iterdir w <> Ok [])
                          /\ (@Ok unit tt = Ok tt /\ @Ok unit tt = Ok tt
                              /\ @Ok unit tt = Ok tt)
                          /\ false = false))
    by (intros l ->; split; [right; reflexivity|];
        split; [intros _; rewrite Hiter; repeat split; discriminate
               | reflexivity]).
  all: rewrite Hiter in Hyes.
  all: destruct (popen w) as [process|e4]; cbn [call bind spawned outcome];
    [|apply Hyes; reflexivity].
  all: apply Hyes.
  all: rewrite spawned_bind, stdout_loop_spawns_nothing.
  all: destruct (outcome (stdout_loop _ _ _ _) _) as [[]|e5];
    [|reflexivity].
  all: destruct (stderr_read process) as [stderr|e6];
    cbn [call bind spawned outcome app]; [|reflexivity].
  all: destruct (classify_exit (returncode process) stderr []) as [[st msg] ws];
    reflexivity.
Qed.

(** X9. A run calls [subprocess.Popen] at most once, and if it does, the
    command is rsync with the fixed options and the two directories, each
    with a slash at its end.  It makes the call exactly when rsync is
    installed, the source exists and was not seen to be empty, the
    destination could be made and written to, and the free space is not
    below 0.5.  ([spawned] records the call, whether it returns a child or
    raises.) *)
Theorem X9_rsync_launched_once_after_checks :
  forall w s,
    (spawned (run_sync_background w) s = []
     \/ spawned (run_sync_background w) s = [rsync_cmd w])
    /\ (spawned (run_sync_background w) s = [rsync_cmd w]
        <-> source_ready w /\ destination_writable w
            /\ lt_half (free_gb (get_disk_space w)) = false).
Proof. exact rsync_launch_condition. Qed.

(** ** A run that gets to the end *)

Lemma count_source_files_nonneg items : 0 <= count_source_files items.
Proof.
  unfold count_source_files. rewrite count_source_files_from_eq. lia.
Qed.

Lemma job_steps_completed w s process stderr :
  source_ready w -> destination_writable w ->
  lt_half (free_gb (get_disk_space w)) = false ->
  popen w = Ok process ->
  stdout_error process = None ->
  stderr_read process = Ok stderr ->
  count_source_files (source_rglob w) < 2 ^ 63 ->
  Z.of_nat (List.length (stdout_lines process)) < 2 ^ 63 ->
  outcome (job_steps w) s = Ok tt
  /\ final_state (job_steps w) s
     = (let '(st, msg, ws) :=
          classify_exit (returncode process) stderr [] in
        finish_block st msg (now_second w)
          (extract_files_transferred
             (List.concat (stdout_lines process) ++ stderr))
          ws s)
  /\ List.length (states (job_steps w) s)
     = (2 + List.length (filter is_item_line (stdout_lines process)))%nat.
Proof.
  intros [Hrsync [Hexists Hlisted]] [Hmkdir [Htouch Hunlink]] Hdisk Hpopen
         Herr Hstderr Htotal Hlines.
  pose proof (count_source_files_nonneg (source_rglob w)) as Htotal0.
  set (total := count_source_files (source_rglob w)) in *.
  set (s1 := start_block total (now_first w) s).
  destruct (stdout_loop_counts total None (stdout_lines process) 0 s1
              (mkProgress (lit "running") (now_first w) None 0 total 0)
              eq_refl eq_refl)
    as [Hout [Hmap [_ [_ _]]]]; [lia | lia | lia |].
  apply (f_equal (@List.length (option Z))) in Hmap.
  rewrite !length_map, length_seq in Hmap.
  unfold job_steps. fold total.
  rewrite Hrsync, Hexists.
  destruct (source_iterdir w) as [[|x xs]|e];
    [contradiction Hlisted; reflexivity | |].
  all: rewrite Hmkdir, Htouch, Hunlink, Hdisk, Hpopen.
  all: cbn [bind locked call try_except negb any_path outcome final_state
              states fst snd].
  all: fold s1.
  all: rewrite outcome_bind, final_state_bind, states_bind, Herr, Hout,
         Hstderr.
  all: cbn [bind call outcome final_state states].
  all: destruct (classify_exit (returncode process) stderr [])
         as [[st msg] ws].
  all: cbn [locked outcome final_state states fst snd].
  all: split; [reflexivity|]; split; [reflexivity|].
  all: cbn [List.length]; rewrite length_app, Hmap; cbn [List.length]; lia.
Qed.

(** X10. When every check passes, rsync starts, its output is read to the
    end and its error text is read, the run ends without exception: the
    result holds the status and message the exit code is classified to,
    the count taken from the output followed by the error text, and the
    warnings, or none when the list is empty.  The shared state was written
    once at the start, once for each item line and once at the end.  (The
    file count and the number of lines are below 2^63.) *)
Theorem X10_completed_run_result :
  forall w s process stderr,
    source_ready w -> destination_writable w ->
    lt_half (free_gb (get_disk_space w)) = false ->
    popen w = Ok process ->
    stdout_error process = None ->
    stderr_read process = Ok stderr ->
    count_source_files (source_rglob w) < 2 ^ 63 ->
    Z.of_nat (List.length (stdout_lines process)) < 2 ^ 63 ->
    outcome (run_sync_background w) s = Ok tt
    /\ final_state (run_sync_background w) s
       = (let '(st, msg, ws) :=
            classify_exit (returncode process) stderr [] in
          {| is_running := false;
             progress := None;
             last_sync :=
               Some {| status := st;
                       message := msg;
                       timestamp := now_second w;
                       files_transferred :=
                         extract_files_transferred
                           (List.concat (stdout_lines process) ++ stderr);
                       warnings := match ws with
                                   | [] => None
                                   | _ :: _ => Some ws
                                   end |} |})
    /\ List.length (states (run_sync_background w) s)
       = (2 + List.length (filter is_item_line (stdout_lines process)))%nat.
Proof.
  intros w s process stderr H1 H2 H3 H4 H5 H6 H7 H8.
  destruct (job_steps_completed w s process stderr H1 H2 H3 H4 H5 H6 H7 H8)
    as [Hout [Hfin Hlen]].
  unfold run_sync_background.
  rewrite outcome_try_except, final_state_try_except, states_try_except, Hout.
  split; [reflexivity|]. split.
  - rewrite Hfin.
    destruct (classify_exit (returncode process) stderr []) as [[st msg] ws].
    reflexivity.
  - rewrite app_nil_r. exact Hlen.
Qed.

Lemma X10_completed_run_result_witness :
  outcome (run_sync_background healthy_world) sync_state = Ok tt
  /\ final_state (run_sync_background healthy_world) sync_state
     = {| is_running := false;
          progress := None;
          last_sync :=
            Some {| status := lit "success";
                    message := lit "Sync completed";
                    timestamp := now_second healthy_world;
                    files_transferred := 1;
                    warnings := None |} |}
  /\ List.length (states (run_sync_background healthy_world) sync_state)
     = 4%nat.
Proof.
  apply (X10_completed_run_result healthy_world sync_state one_file_process []).
  - split; [reflexivity|]. split; [reflexivity | discriminate].
  - split; [reflexivity|]. split; reflexivity.
  - reflexivity.
  - reflexivity.
  - reflexivity.
  - reflexivity.
  - reflexivity.
  - reflexivity.
Defined.

(** ** The start operation, case by case *)

(** X11. With no job running, the start operation answers by what it
    finds, in this order: HTTP 500 "rsync not installed" when rsync is
    missing, whatever the source; the exception of the existence test
    itself when that raises; HTTP 404 "Source not found: " with the source
    path when the source is missing; and otherwise the acknowledgement with
    the start time and both paths.  It hands over a job body exactly when
    it acknowledges, and never more than one. *)
Theorem X11_start_outcomes :
  forall w s,
    is_running s = false ->
    (check_rsync_available w = false ->
     outcome (sync_folders w) s
     = Err (mkExn (HTTPException 500) (lit "rsync not installed")))
    /\ (forall e,
           check_rsync_available w = true -> source_exists w = Err e ->
           outcome (sync_folders w) s = Err e)
    /\ (check_rsync_available w = true -> source_exists w = Ok false ->
        outcome (sync_folders w) s
        = Err (mkExn (HTTPException 404)
                     (lit "Source not found: " ++ SOURCE_DIR w)))
    /\ (check_rsync_available w = true -> source_exists w = Ok true ->
        outcome (sync_folders w) s
        = Ok {| r_status := lit "started";
                r_message := lit "Sync started in background";
                r_timestamp := now_first w;
                source_path := SOURCE_DIR w;
                destination_path := DESTINATION_DIR w |})
    /\ (scheduled (sync_folders w) s = 1%nat
        <-> exists r, outcome (sync_folders w) s = Ok r)
    /\ (scheduled (sync_folders w) s <= 1)%nat.
Proof.
  intros w s Hidle. unfold sync_folders.
  cbn [bind locked outcome scheduled fst snd]. rewrite Hidle.
  cbn [bind outcome scheduled].
  destruct (check_rsync_available w); cbn [negb bind outcome scheduled].
  2: { repeat split; try discriminate; try lia.
       intros [r H]. discriminate H. }
  destruct (source_exists w) as [[|]|e];
    cbn [call negb bind outcome scheduled].
  - repeat split; try discriminate; try lia; try reflexivity.
    intros _. eexists. reflexivity.
  - repeat split; try discriminate; try lia; try reflexivity.
    intros [r H]. discriminate H.
  - repeat split; try discriminate; try lia.
    + intros e' _ E. injection E as <-. reflexivity.
    + intros [r H]. discriminate H.
Qed.

Lemma X11_start_outcomes_witness :
  outcome (sync_folders bare_world) sync_state
  = Err (mkExn (HTTPException 500) (lit "rsync not installed"))
  /\ outcome (sync_folders healthy_world) sync_state
     = Ok {| r_status := lit "started";
             r_message := lit "Sync started in background";
             r_timestamp := now_first healthy_world;
             source_path := SOURCE_DIR healthy_world;
             destination_path := DESTINATION_DIR healthy_world |}.
Proof.
  split.
  - exact (proj1 (X11_start_outcomes bare_world sync_state eq_refl) eq_refl).
  - exact (proj1 (proj2 (proj2 (proj2
             (X11_start_outcomes healthy_world sync_state eq_refl))))
             eq_refl eq_refl).
Defined.

Lemma sync_folders_accepts w s :
  is_running s = false ->
  check_rsync_available w = true -> source_exists w = Ok true ->
  exists r, outcome (sync_folders w) s = Ok r
            /\ scheduled (sync_folders w) s = 1%nat.
Proof.
  intros Hidle Hrsync Hexists. unfold sync_folders.
  cbn [bind locked outcome scheduled fst snd].
  rewrite Hidle. cbn [bind outcome scheduled].
  rewrite Hrsync. cbn [negb bind outcome scheduled].
  rewrite Hexists. cbn [call negb bind outcome scheduled].
  eexists. split; reflexivity.
Qed.

(** ** What one step of the server does to the result *)

Section EveryBlock.
Variable R : sync_state_t -> sync_state_t -> Prop.

Lemma every_block_bind {A B : Type} (m : job A) (f : A -> job B) :
  every_block R m -> (forall a, every_block R (f a)) ->
  every_block R (bind m f).
Proof.
  intros Hm Hf. induction m as [a|e|upd k IH|cmd k IH|k IH]; simpl in *; auto.
  destruct Hm as [H1 H2]. split; auto.
Qed.

Lemma every_block_try_except {A : Type} (m : job A) (h : exn -> job A) :
  every_block R m -> (forall e, every_block R (h e)) ->
  every_block R (try_except m h).
Proof.
  intros Hm Hh. induction m as [a|e|upd k IH|cmd k IH|k IH]; simpl in *; auto.
  destruct Hm as [H1 H2]. split; auto.
Qed.

Lemma every_block_locked (body : sync_state_t -> sync_state_t * option exn) :
  (forall s, R s (fst (body s))) -> every_block R (locked body).
Proof.
  intros H. simpl. split; [exact H|].
  intros s. destruct (snd (body s)); exact I.
Qed.

Lemma every_block_call {A : Type} (r : result A) : every_block R (call r).
Proof. destruct r; exact I. Qed.

Lemma job_step_every_block {A : Type} (j j' : job A) s s' added :
  job_step j s j' s' added -> every_block R j ->
  every_block R j' /\ (s' = s \/ R s s').
Proof.
  intros Hstep. destruct Hstep; simpl; intros Hj.
  - destruct Hj as [H1 H2]. split; [apply H2 | right; apply H1].
  - split; [exact Hj | left; reflexivity].
  - split; [exact Hj | left; reflexivity].
Qed.

Hypothesis R_start : forall total now s, R s (start_block total now s).
Hypothesis R_empty : forall now s, R s (empty_block now s).
Hypothesis R_finish : forall st msg now n ws s,
    R s (finish_block st msg now n ws s).
Hypothesis R_failed : forall e now s, R s (failed_block e now s).
Hypothesis R_progress : forall ls completed total s,
    R s (fst (progress_block ls completed total s)).
Hypothesis R_refl : forall s, R s s.

Lemma every_block_stdout_loop total err lines :
  forall completed, every_block R (stdout_loop total err completed lines).
Proof.
  induction lines as [|line rest IH]; intros completed; cbn [stdout_loop].
  - destruct err; exact I.
  - destruct (qualifies (strip line)); [|apply IH].
    apply every_block_bind; [|intros _; apply IH].
    apply every_block_locked. intros s. apply R_progress.
Qed.

Lemma every_block_run_sync_background w :
  every_block R (run_sync_background w).
Proof.
  unfold run_sync_background. apply every_block_try_except.
  2: { intros e. apply every_block_locked. intros s. apply R_failed. }
  unfold job_steps.
  apply every_block_bind; [apply every_block_locked; intros; apply R_start|].
  intros _. apply every_block_bind; [destruct (negb _); exact I|].
  intros _. apply every_block_bind; [apply every_block_call|].
  intros there. apply every_block_bind; [destruct (negb _); exact I|].
  intros _. apply every_block_bind.
  { apply every_block_try_except; [|intros; exact I].
    apply every_block_bind; [apply every_block_call | intros; exact I]. }
  intros [|].
  { apply every_block_locked; intros; apply R_empty. }
  apply every_block_bind; [apply every_block_call|].
  intros _. apply every_block_bind.
  { apply every_block_try_except.
    - apply every_block_bind; [apply every_block_call|].
      intros _. apply every_block_call.
    - intros e. destruct (is_PermissionError e); exact I. }
  intros _. apply every_block_bind; [destruct (lt_half _); exact I|].
  intros _. apply every_block_bind.
  { cbn [every_block]. apply every_block_call. }
  intros process. apply every_block_bind; [apply every_block_stdout_loop|].
  intros _. apply every_block_bind; [apply every_block_call|].
  intros stderr.
  destruct (classify_exit (returncode process) stderr []) as [[st msg] ws].
  apply every_block_locked; intros; apply R_finish.
Qed.

Lemma every_block_read_only {A : Type} (j : job A) :
  read_only j -> every_block R j.
Proof.
  induction j as [a|e|upd k IH|cmd k IH|k IH]; simpl; auto.
  intros [H1 H2]. split; [|auto].
  intros s. rewrite H1. apply R_refl.
Qed.

(** In every configuration the server can get to, all threads are made of
    blocks that respect [R]. *)
Lemma reachable_every_block (c : config) :
  reachable c -> Forall (thread_every_block R) (threads c).
Proof.
  assert (Hnew : forall added w,
             Forall (thread_every_block R) (new_bodies added w)).
  { intros [|] w; cbn [new_bodies]; [|constructor].
    constructor; [|constructor].
    cbn [thread_every_block]. apply every_block_run_sync_background. }
  induction 1 as [|c c' Hc IH Hstep]; [constructor|].
  destruct Hstep as [s ts w | s s' pre post j j' added w Hj
                    | s s' pre post j j' added w Hj]; simpl in *.
  - apply Forall_app. split; [exact IH|].
    constructor; [|constructor].
    cbn [thread_every_block].
    apply every_block_read_only, read_only_sync_folders.
  - apply Forall_app in IH. destruct IH as [Hpre Hrest].
    inversion Hrest as [|t l Ht Hpost]; subst.
    destruct (job_step_every_block _ _ _ _ _ Hj Ht) as [Hj' _].
    apply Forall_app. split; [exact Hpre|].
    constructor; [exact Hj'|].
    apply Forall_app. split; [exact Hpost | apply Hnew].
  - apply Forall_app in IH. destruct IH as [Hpre Hrest].
    inversion Hrest as [|t l Ht Hpost]; subst.
    destruct (job_step_every_block _ _ _ _ _ Hj Ht) as [Hj' _].
    apply Forall_app. split; [exact Hpre|].
    constructor; [exact Hj'|].
    apply Forall_app. split; [exact Hpost | apply Hnew].
Qed.

Lemma reachable_step_effect (c c' : config) :
  reachable c -> step c c' -> R (shared c) (shared c').
Proof.
  intros Hc Hstep. pose proof (reachable_every_block c Hc) as Hall.
  destruct Hstep as [s ts w | s s' pre post j j' added w Hj
                    | s s' pre post j j' added w Hj]; simpl in *.
  - apply R_refl.
  - apply Forall_app in Hall. destruct Hall as [_ Hrest].
    inversion Hrest as [|t l Ht _]; subst.
    destruct (job_step_every_block _ _ _ _ _ Hj Ht) as [_ [->|H]];
      [apply R_refl | exact H].
  - apply Forall_app in Hall. destruct Hall as [_ Hrest].
    inversion Hrest as [|t l Ht _]; subst.
    destruct (job_step_every_block _ _ _ _ _ Hj Ht) as [_ [->|H]];
      [apply R_refl | exact H].
Qed.
End EveryBlock.

Lemma block_effect_progress_block ls completed total s :
  block_effect s (fst (progress_block ls completed total s)).
Proof.
  left. unfold progress_block.
  destruct (progress s) as [p|]; [|split; [reflexivity | right; reflexivity]].
  destruct (total >? 0); [destruct (compute_percentage completed total)|];
    (split; [reflexivity | right; reflexivity]).
Qed.

(** X13. In every step the server takes, the shared state either keeps its
    result and keeps or sets the running flag, or becomes idle with a
    result.  So a result, once there, never disappears; the result changes
    only in a step that leaves the state idle; and the running flag goes
    from true to false only in a step that also clears the progress and
    writes a result. *)
Theorem X13_result_written_only_when_idle :
  forall c c',
    reachable c -> step c c' ->
    block_effect (shared c) (shared c')
    /\ (last_sync (shared c) <> None -> last_sync (shared c') <> None)
    /\ (last_sync (shared c') <> last_sync (shared c) -> idle (shared c'))
    /\ (is_running (shared c) = true -> is_running (shared c') = false ->
        idle (shared c') /\ last_sync (shared c') <> None).
Proof.
  intros c c' Hc Hstep.
  assert (H : block_effect (shared c) (shared c')).
  { apply (reachable_step_effect block_effect); try assumption.
    - intros. left. split; [reflexivity | left; reflexivity].
    - intros. right. split; [split; reflexivity | discriminate].
    - intros. right. split; [split; reflexivity | discriminate].
    - intros. right. split; [split; reflexivity | discriminate].
    - intros. apply block_effect_progress_block.
    - intros. left. split; [reflexivity | right; reflexivity]. }
  split; [exact H|].
  destruct H as [[Hsame Hrun]|[Hidle Hres]].
  - split; [rewrite Hsame; auto|].
    split; [intros Hne; contradiction|].
    intros Ht Hf. destruct Hrun as [Hrun|Hrun]; congruence.
  - split; [auto|]. split; auto.
Qed.

Lemma X13_result_written_only_when_idle_witness :
  block_effect (shared running_config)
    (shared (mkConfig (shared running_config)
                      (threads running_config
                       ++ [Request (sync_folders bare_world)]))).
Proof.
  exact (proj1 (X13_result_written_only_when_idle running_config _
                  running_config_reachable
                  (step_arrive (shared running_config)
                               (threads running_config) bare_world))).
Defined.

(** ** The health report *)

(** X14. When both existence tests answer, the health report is
    "unhealthy" with an error note exactly when rsync is missing,
    "degraded" with a warning note exactly when rsync is there and the
    source is not, and "healthy" with neither note otherwise: a missing
    destination and a disk that cannot be asked change nothing.  The
    report repeats what the tests answered. *)
Theorem X14_health_status :
  forall rw h,
    health_check rw = Ok h ->
    (h_status h = lit "unhealthy"
     <-> check_rsync_available (rw_world rw) = false)
    /\ (h_status h = lit "degraded"
        <-> check_rsync_available (rw_world rw) = true
            /\ source_exists (rw_world rw) = Ok false)
    /\ (h_status h = lit "healthy"
        <-> check_rsync_available (rw_world rw) = true
            /\ source_exists (rw_world rw) = Ok true)
    /\ (h_error h <> None <-> h_status h = lit "unhealthy")
    /\ (h_warning h <> None <-> h_status h = lit "degraded")
    /\ h_rsync_available h = check_rsync_available (rw_world rw)
    /\ source_exists (rw_world rw) = Ok (h_source_directory h)
    /\ destination_exists rw = Ok (h_destination_directory h).
Proof.
  intros rw h. unfold health_check.
  destruct (source_exists (rw_world rw)) as [src|e]; [|discriminate].
  destruct (destination_exists rw) as [dst|e]; [|discriminate].
  cbn [h_rsync_available h_source_directory].
  destruct (check_rsync_available (rw_world rw)); cbn [negb].
  - destruct src; cbn [negb]; intros E; injection E as <-;
      cbn [h_status h_error h_warning h_rsync_available h_source_directory
             h_destination_directory];
      repeat split; intros; try discriminate; try reflexivity;
      try congruence;
      try match goal with H : _ /\ _ |- _ => destruct H; discriminate end.
  - intros E; injection E as <-;
      cbn [h_status h_error h_warning h_rsync_available h_source_directory
             h_destination_directory];
      repeat split; intros; try discriminate; try reflexivity;
      try congruence;
      try match goal with H : _ /\ _ |- _ => destruct H; discriminate end.
Qed.

Lemma X14_health_status_witness :
  exists h,
    health_check bare_report = Ok h
    /\ h_status h = lit "unhealthy"
    /\ h_destination_directory h = false.
Proof.
  eexists. split; [reflexivity|].
  split; [|reflexivity].
  apply (proj1 (X14_health_status bare_report _ eq_refl)). reflexivity.
Defined.

(** X15. The health report foretells the start operation: on the same
    machine and with no job running, the report is "healthy" exactly when
    a start is acknowledged, "unhealthy" exactly when a start ends with
    HTTP 500, and "degraded" exactly when it ends with HTTP 404. *)
Theorem X15_health_foretells_start :
  forall rw h s,
    health_check rw = Ok h ->
    is_running s = false ->
    (h_status h = lit "healthy"
     <-> exists r, outcome (sync_folders (rw_world rw)) s = Ok r)
    /\ (h_status h = lit "unhealthy"
        <-> outcome (sync_folders (rw_world rw)) s
            = Err (mkExn (HTTPException 500) (lit "rsync not installed")))
    /\ (h_status h = lit "degraded"
        <-> outcome (sync_folders (rw_world rw)) s
            = Err (mkExn (HTTPException 404)
                         (lit "Source not found: "
                            ++ SOURCE_DIR (rw_world rw)))).
Proof.
  intros rw h s Hh Hidle. revert Hh.
  unfold health_check, sync_folders.
  cbn [bind locked outcome fst snd]. rewrite Hidle. cbn [bind outcome].
  destruct (source_exists (rw_world rw)) as [src|e]; [|discriminate].
  destruct (destination_exists rw) as [dst|e]; [|discriminate].
  cbn [h_rsync_available h_source_directory].
  destruct (check_rsync_available (rw_world rw));
    cbn [negb call bind outcome].
  - destruct src; cbn [negb bind outcome]; intros E; injection E as <-;
      cbn [h_status];
      repeat split; intros; try discriminate; try reflexivity;
      try (eexists; reflexivity);
      try match goal with H : exists _, _ |- _ =>
            destruct H as [? H]; discriminate H end.
  - intros E; injection E as <-; cbn [h_status];
      repeat split; intros; try discriminate; try reflexivity;
      try match goal with H : exists _, _ |- _ =>
            destruct H as [? H]; discriminate H end.
Qed.

Lemma X15_health_foretells_start_witness :
  exists h,
    health_check healthy_report = Ok h
    /\ h_status h = lit "healthy"
    /\ exists r, outcome (sync_folders healthy_world) sync_state = Ok r.
Proof.
  eexists. split; [reflexivity|]. split; [reflexivity|].
  apply (proj1 (proj1 (X15_health_foretells_start healthy_report _ sync_state
                         eq_refl eq_refl))).
  reflexivity.
Defined.

(** ** The status report *)

Lemma read_only_try_except {A : Type} (m : job A) (h : exn -> job A) :
  read_only m -> (forall e, read_only (h e)) -> read_only (try_except m h).
Proof.
  intros Hm Hh. induction m as [a|e|upd k IH|cmd k IH|k IH]; simpl in *; auto.
  destruct Hm as [H1 H2]. split; auto.
Qed.

Lemma read_only_get_status rw : read_only (get_status rw).
Proof.
  unfold get_status. apply read_only_try_except; [|intros e; exact I].
  apply read_only_bind; [apply read_only_call|].
  intros source_info. apply read_only_bind; [apply read_only_call|].
  intros destination_info. apply read_only_bind; [|intros; exact I].
  simpl. split; [reflexivity | intros; exact I].
Qed.

(** X16. The status handler never changes the shared state.  It answers
    with the running flag and the last result as they were when it held
    the lock, and with a progress exactly when one was present; or, when
    an existence test or the size conversion raises, it ends with HTTP 500
    whose detail is "Status error: " followed by the text of that
    exception - no other exception leaves it. *)
Theorem X16_status_reads_only :
  forall rw s,
    read_only (get_status rw)
    /\ final_state (get_status rw) s = s
    /\ match outcome (get_status rw) s with
       | Ok r =>
           is_running (st_sync r) = is_running s
           /\ last_sync (st_sync r) = last_sync s
           /\ (progress (st_sync r) = None <-> progress s = None)
           /\ count_files (round2 (rw_world rw))
                          (source_exists (rw_world rw)) (source_tree rw)
              = Ok (st_source r)
           /\ count_files (round2 (rw_world rw))
                          (destination_exists rw) (destination_tree rw)
              = Ok (st_destination r)
       | Err e =>
           exists e0,
             e = mkExn (HTTPException 500)
                       (lit "Status error: " ++ exn_text e0)
             /\ (count_files (round2 (rw_world rw))
                             (source_exists (rw_world rw)) (source_tree rw)
                 = Err e0
                 \/ count_files (round2 (rw_world rw))
                                (destination_exists rw) (destination_tree rw)
                    = Err e0)
       end.
Proof.
  intros rw s.
  split; [apply read_only_get_status|].
  split; [apply read_only_final_state, read_only_get_status|].
  unfold get_status. rewrite outcome_try_except.
  destruct (count_files (round2 (rw_world rw)) (source_exists (rw_world rw))
                        (source_tree rw)) as [si|e1];
    cbn [call bind outcome].
  2: { exists e1. split; [reflexivity | left; reflexivity]. }
  destruct (count_files (round2 (rw_world rw)) (destination_exists rw)
                        (destination_tree rw)) as [di|e2];
    cbn [call bind outcome].
  2: { exists e2. split; [reflexivity | right; reflexivity]. }
  cbn [st_sync st_source st_destination is_running last_sync progress].
  repeat split; auto.
Qed.

(** ** Counting for the status report *)

Lemma count_files_loop_bounds (items : list tree_item) :
  forall files folders total_size,
    let '(f, d, _) := count_files_loop items files folders total_size in
    files <= f /\ folders <= d
    /\ f + d <= files + folders + Z.of_nat (List.length items).
Proof.
  induction items as [|item rest IH]; intros files folders total_size;
    cbn [count_files_loop List.length]; [lia|].
  destruct (item_is_file item) as [[|]|e|e].
  - destruct (item_size item) as [size|e|e];
      [specialize (IH (files + 1) folders (total_size + size))
      |specialize (IH (files + 1) folders total_size) | lia];
      destruct (count_files_loop rest _ _ _) as [[f d] t]; lia.
  - destruct (item_is_dir item) as [[|]|e|e];
      [specialize (IH files (folders + 1) total_size)
      |specialize (IH files folders total_size)
      |specialize (IH files folders total_size) | lia];
      destruct (count_files_loop rest _ _ _) as [[f d] t]; lia.
  - specialize (IH files folders total_size).
    destruct (count_files_loop rest _ _ _) as [[f d] t]; lia.
  - lia.
Qed.

Lemma count_files_loop_eq (items : list tree_item) :
  forallb (fun item => negb (raises_other item)) items = true ->
  forall files folders total_size,
    count_files_loop items files folders total_size
    = (files + Z.of_nat (List.length (filter counted_file items)),
       folders + Z.of_nat (List.length (filter counted_folder items)),
       total_size + fold_right Z.add 0 (map counted_size items)).
Proof.
  induction items as [|item rest IH]; intros Hno files folders total_size.
  - cbn. apply (f_equal2 pair); [apply (f_equal2 pair)|]; lia.
  - cbn [forallb] in Hno. apply andb_prop in Hno. destruct Hno as [Hitem Hrest].
    specialize (IH Hrest).
    cbn [count_files_loop filter map fold_right].
    unfold counted_file at 1, counted_folder at 1, counted_size at 1.
    unfold raises_other in Hitem.
    destruct (item_is_file item) as [[|]|e|e].
    + destruct (item_size item) as [size|e|e]; [| |discriminate Hitem];
        rewrite IH; cbn [List.length];
        (apply (f_equal2 pair); [apply (f_equal2 pair)|]; lia).
    + destruct (item_is_dir item) as [[|]|e|e]; [| | |discriminate Hitem];
        rewrite IH; cbn [List.length];
        (apply (f_equal2 pair); [apply (f_equal2 pair)|]; lia).
    + rewrite IH. apply (f_equal2 pair); [apply (f_equal2 pair)|]; lia.
    + discriminate Hitem.
Qed.

(** X17. [count_files] answers zeros with [exists] false for a directory
    that is not there, whatever would be listed.  For one that is there,
    the files and folders it counts are never more than the items listed;
    and when no call raises anything but an [OSError], it counts every item
    that is a file, every other item that is a folder, and adds up the
    sizes of the files whose size could be read - a file whose size raises
    an [OSError] is still counted as a file. *)
Theorem X17_count_files :
  forall rnd items,
    count_files rnd (Ok false) items = Ok (mkDirInfo false 0 0 0 (NInt 0))
    /\ (let '(f, d, _) := count_files_loop items 0 0 0 in
        0 <= f /\ 0 <= d /\ f + d <= Z.of_nat (List.length items))
    /\ (forallb (fun item => negb (raises_other item)) items = true ->
        count_files_loop items 0 0 0
        = (Z.of_nat (List.length (filter counted_file items)),
           Z.of_nat (List.length (filter counted_folder items)),
           fold_right Z.add 0 (map counted_size items)))
    /\ (forall info,
           count_files rnd (Ok true) items = Ok info ->
           di_exists info = true
           /\ (di_files info, di_folders info, di_total_size info)
              = count_files_loop items 0 0 0).
Proof.
  intros rnd items. split; [reflexivity|]. split.
  { pose proof (count_files_loop_bounds items 0 0 0) as H.
    destruct (count_files_loop items 0 0 0) as [[f d] t]. lia. }
  split.
  { intros Hno. rewrite (count_files_loop_eq items Hno). reflexivity. }
  intros info. unfold count_files.
  destruct (count_files_loop items 0 0 0) as [[f d] t].
  destruct (int_true_div t (1024 * 1024)) as [x|e]; [|discriminate].
  intros E. injection E as <-. split; reflexivity.
Qed.

Lemma X17_count_files_witness :
  count_files_loop mixed_tree 0 0 0 = (3, 1, 123).
Proof.
  exact (proj1 (proj2 (proj2 (X17_count_files (fun x => x) mixed_tree)))
           eq_refl).
Defined.

Lemma before_error_files_le (items : list tree_item) :
  (count_occ bool_dec (before_error (file_answers items)) true
   <= List.length (filter counted_file items))%nat.
Proof.
  induction items as [|item rest IH]; [simpl; lia|].
  cbn [file_answers map before_error filter]. unfold counted_file at 1.
  fold (file_answers rest).
  destruct (item_is_file item) as [[|]|e|e]; cbn [before_error count_occ].
  - destruct (bool_dec true true); [|contradiction]. cbn [List.length]. lia.
  - destruct (bool_dec false true); [discriminate|]. exact IH.
  - lia.
  - lia.
Qed.

Lemma before_error_files_eq (items : list tree_item) :
  Forall (fun item => exists b, item_is_file item = Answered b) items ->
  count_occ bool_dec (before_error (file_answers items)) true
  = List.length (filter counted_file items).
Proof.
  induction 1 as [|item rest [b Hb] _ IH]; [reflexivity|].
  cbn [file_answers map before_error filter]. unfold counted_file at 1.
  fold (file_answers rest). rewrite Hb.
  destruct b; cbn [before_error count_occ].
  - destruct (bool_dec true true); [|contradiction]. cbn [List.length]. lia.
  - destruct (bool_dec false true); [discriminate|]. exact IH.
Qed.

(** X18. The file count of the status report and the file count the job
    takes at its start agree on a listing where every [is_file()] answers
    and nothing but [OSError]s are raised.  Where [is_file()] raises, the
    job's count can only be the smaller one: it stops at the first error,
    the status report skips the item and goes on. *)
Theorem X18_status_and_job_counts :
  forall items,
    forallb (fun item => negb (raises_other item)) items = true ->
    count_source_files (file_answers items)
    <= fst (fst (count_files_loop items 0 0 0))
    /\ (Forall (fun item => exists b, item_is_file item = Answered b) items ->
        count_source_files (file_answers items)
        = fst (fst (count_files_loop items 0 0 0))).
Proof.
  intros items Hno.
  rewrite (count_files_loop_eq items Hno). cbn [fst].
  unfold count_source_files. rewrite count_source_files_from_eq.
  split.
  - pose proof (before_error_files_le items). lia.
  - intros Hall. rewrite (before_error_files_eq items Hall). lia.
Qed.

Lemma X18_status_and_job_counts_witness :
  count_source_files (file_answers mixed_tree)
  <= fst (fst (count_files_loop mixed_tree 0 0 0)).
Proof.
  exact (proj1 (X18_status_and_job_counts mixed_tree eq_refl)).
Defined.

(** ** Runs that fail before or after the launch *)

(** X19. The job body checks again what the start operation checked: with
    rsync missing the run ends failed with "rsync not installed"; when the
    existence test of the source raises, with the text of that exception;
    with the source missing, with "Source not found: " and the source
    path.  In none of these cases is rsync launched. *)
Theorem X19_body_checks_again :
  forall w s,
    (check_rsync_available w = false ->
     final_state (run_sync_background w) s
     = failed_state w (lit "rsync not installed")
     /\ spawned (run_sync_background w) s = [])
    /\ (forall e,
           check_rsync_available w = true -> source_exists w = Err e ->
           final_state (run_sync_background w) s
           = failed_state w (exn_text e)
           /\ spawned (run_sync_background w) s = [])
    /\ (check_rsync_available w = true -> source_exists w = Ok false ->
        final_state (run_sync_background w) s
        = failed_state w (lit "Source not found: " ++ SOURCE_DIR w)
        /\ spawned (run_sync_background w) s = []).
Proof.
  intros w s. unfold run_sync_background, job_steps. repeat split.
  - rewrite H. reflexivity.
  - rewrite H. reflexivity.
  - rewrite H, H0. reflexivity.
  - rewrite H, H0. reflexivity.
  - rewrite H, H0. reflexivity.
  - rewrite H, H0. reflexivity.
Qed.

Lemma X19_body_checks_again_witness :
  final_state (run_sync_background bare_world) running_state
  = failed_state bare_world (lit "rsync not installed")
  /\ spawned (run_sync_background bare_world) running_state = [].
Proof.
  exact (proj1 (X19_body_checks_again bare_world running_state) eq_refl).
Defined.

Lemma final_state_run_failed w s e :
  outcome (job_steps w) s = Err e ->
  final_state (run_sync_background w) s = failed_state w (exn_text e).
Proof.
  intros H. unfold run_sync_background.
  rewrite final_state_try_except, H. reflexivity.
Qed.

Lemma job_steps_after_launch w s :
  source_ready w -> destination_writable w ->
  lt_half (free_gb (get_disk_space w)) = false ->
  outcome (job_steps w) s
  = outcome (process <- call (popen w) ;;
             stdout_loop (count_source_files (source_rglob w))
                         (stdout_error process) 0 (stdout_lines process) ;;
             stderr <- call (stderr_read process) ;;
             Ret tt)
            (start_block (count_source_files (source_rglob w))
                         (now_first w) s).
Proof.
  intros [Hrsync [Hexists Hlisted]] [Hmkdir [Htouch Hunlink]] Hdisk.
  unfold job_steps. rewrite Hrsync, Hexists.
  destruct (source_iterdir w) as [[|x xs]|e];
    [contradiction Hlisted; reflexivity | |].
  all: rewrite Hmkdir, Htouch, Hunlink, Hdisk.
  all: cbn [bind locked call try_except negb any_path outcome fst snd].
  all: destruct (popen w) as [process|e']; cbn [call bind outcome];
    [|reflexivity].
  all: rewrite !outcome_bind.
  all: destruct (outcome (stdout_loop _ _ _ _) _) as [[]|e'']; [|reflexivity].
  all: destruct (stderr_read process) as [stderr|e3];
    cbn [call bind outcome]; [|reflexivity].
  all: destruct (classify_exit (returncode process) stderr [])
         as [[st msg] ws]; reflexivity.
Qed.

(** X20. Once the checks have passed, a failure to start rsync, an error of
    its output stream and an error while reading its error text each end
    the run failed with the text of that exception; the exit code is not
    looked at.  (File count and number of lines below 2^63.) *)
Theorem X20_failures_after_launch :
  forall w s,
    source_ready w -> destination_writable w ->
    lt_half (free_gb (get_disk_space w)) = false ->
    (forall e,
        popen w = Err e ->
        final_state (run_sync_background w) s = failed_state w (exn_text e)
        /\ spawned (run_sync_background w) s = [rsync_cmd w])
    /\ (forall process e,
           popen w = Ok process ->
           count_source_files (source_rglob w) < 2 ^ 63 ->
           Z.of_nat (List.length (stdout_lines process)) < 2 ^ 63 ->
           (stdout_error process = Some e
            \/ (stdout_error process = None
                /\ stderr_read process = Err e)) ->
           final_state (run_sync_background w) s
           = failed_state w (exn_text e)).
Proof.
  intros w s Hready Hwrite Hdisk.
  pose proof (job_steps_after_launch w s Hready Hwrite Hdisk) as Hout.
  split.
  - intros e Hpopen. split.
    + apply final_state_run_failed. rewrite Hout, Hpopen. reflexivity.
    + destruct (rsync_launch_condition w s) as [Hcases Hiff].
      apply Hiff. auto.
  - intros process e Hpopen Htotal Hlines Herr.
    apply final_state_run_failed. rewrite Hout, Hpopen.
    cbn [call bind]. rewrite outcome_bind.
    pose proof (count_source_files_nonneg (source_rglob w)) as Htotal0.
    destruct (stdout_loop_counts (count_source_files (source_rglob w))
                (stdout_error process) (stdout_lines process) 0
                (start_block (count_source_files (source_rglob w))
                             (now_first w) s)
                (mkProgress (lit "running") (now_first w) None 0
                            (count_source_files (source_rglob w)) 0)
                eq_refl eq_refl)
      as [Hloop _]; [lia | lia | lia |].
    rewrite Hloop.
    destruct Herr as [Herr|[Herr Hread]]; rewrite Herr; [reflexivity|].
    rewrite Hread. reflexivity.
Qed.

Lemma X20_failures_after_launch_witness :
  final_state (run_sync_background
                 (set_popen (Ok broken_stream_process) healthy_world))
              sync_state
  = failed_state healthy_world (exn_text decode_error).
Proof.
  refine (proj2 (X20_failures_after_launch
                   (set_popen (Ok broken_stream_process) healthy_world)
                   sync_state _ _ _)
                broken_stream_process decode_error eq_refl _ _ _).
  - split; [reflexivity|]. split; [reflexivity | discriminate].
  - split; [reflexivity|]. split; reflexivity.
  - reflexivity.
  - reflexivity.
  - reflexivity.
  - left. reflexivity.
Defined.

(** X21. When the progress is absent - another run has ended in the
    meantime - the loop's blocks change nothing and compute no percentage:
    every state they leave is the state they found, whatever the lines,
    and the loop ends as the output stream does. *)
Theorem X21_loop_without_progress :
  forall total err lines completed s,
    progress s = None ->
    Forall (eq s) (states (stdout_loop total err completed lines) s)
    /\ final_state (stdout_loop total err completed lines) s = s
    /\ outcome (stdout_loop total err completed lines) s
       = match err with Some e => Err e | None => Ok tt end.
Proof.
  intros total err lines completed s Hp. revert completed.
  induction lines as [|line rest IH]; intros completed; cbn [stdout_loop].
  - destruct err; repeat split; constructor.
  - destruct (qualifies (strip line)); [|apply IH].
    cbn [bind locked states final_state outcome].
    unfold progress_block. rewrite Hp. cbn [fst snd bind].
    destruct (IH (completed + 1)) as [H1 [H2 H3]].
    split; [constructor; [reflexivity | exact H1]|].
    split; assumption.
Qed.

Lemma X21_loop_without_progress_witness :
  final_state (stdout_loop 3 None 0 [lit "a.txt" ++ nl; lit "b.txt" ++ nl])
              sync_state
  = sync_state.
Proof.
  exact (proj1 (proj2 (X21_loop_without_progress 3 None
                         [lit "a.txt" ++ nl; lit "b.txt" ++ nl] 0 sync_state
                         eq_refl))).
Defined.

(** ** Schedules *)

Lemma advance_job_step {A : Type} (j j' : job A) s s' added :
  advance j s = Some (j', s', added) -> job_step j s j' s' added.
Proof.
  destruct j as [a|e|upd k|cmd k|k]; simpl; intros E; try discriminate;
    injection E as <- <- <-; constructor.
Qed.

Lemma nth_error_decompose {A : Type} (l : list A) (i : nat) (x : A) :
  nth_error l i = Some x -> l = firstn i l ++ x :: skipn (S i) l.
Proof.
  revert i. induction l as [|y l IH]; intros [|i] H; simpl in H;
    try discriminate.
  - injection H as ->. reflexivity.
  - cbn [firstn skipn app]. f_equal. apply IH, H.
Qed.

Lemma act_reachable (c : config) (a : action) :
  reachable c -> reachable (act c a).
Proof.
  intros Hc. destruct c as [s ts]. destruct a as [w|i w]; cbn [act shared threads].
  - exact (reach_step _ _ Hc (step_arrive s ts w)).
  - destruct (nth_error ts i) as [[j|j]|] eqn:Hi; [| |exact Hc].
    + destruct (advance j s) as [[[j' s'] added]|] eqn:Hadv; [|exact Hc].
      apply (reach_step _ _ Hc).
      pose proof (step_request s s' (firstn i ts) (skipn (S i) ts) j j'
                    added w (advance_job_step _ _ _ _ _ Hadv)) as Hstep.
      rewrite <- (nth_error_decompose ts i _ Hi) in Hstep. exact Hstep.
    + destruct (advance j s) as [[[j' s'] added]|] eqn:Hadv; [|exact Hc].
      apply (reach_step _ _ Hc).
      pose proof (step_body s s' (firstn i ts) (skipn (S i) ts) j j'
                    added w (advance_job_step _ _ _ _ _ Hadv)) as Hstep.
      rewrite <- (nth_error_decompose ts i _ Hi) in Hstep. exact Hstep.
Qed.

(** Whatever the schedule, the server gets to where it leads. *)
Lemma play_reachable (schedule : list action) : reachable (play schedule).
Proof.
  unfold play.
  assert (H : forall c, reachable c -> reachable (fold_left act schedule c)).
  { induction schedule as [|a rest IH]; intros c Hc; [exact Hc|].
    cbn [fold_left]. apply IH, act_reachable, Hc. }
  apply H, reach_init.
Qed.

(** ** The percentages of a run *)

Lemma progress_block_percentage ls completed total s p :
  progress s = Some p ->
  0 <= completed < 2 ^ 63 -> 0 < total < 2 ^ 63 ->
  exists p1 n,
    compute_percentage completed total = Ok n
    /\ progress_block ls completed total s = (set_progress (Some p1) s, None)
    /\ percentage p1 = n.
Proof.
  intros Hp Hc Ht. unfold progress_block. rewrite Hp.
  replace (total >? 0) with true by (symmetry; apply Z.gtb_lt; lia).
  destruct (compute_percentage_total completed total) as [n [Hn _]];
    [lia | lia |].
  rewrite Hn. eexists. exists n. split; [reflexivity|].
  split; reflexivity.
Qed.

Lemma stdout_loop_percentages total err lines :
  forall completed s p,
    progress s = Some p ->
    0 <= completed -> 0 < total < 2 ^ 63 ->
    completed + Z.of_nat (List.length lines) < 2 ^ 63 ->
    map (fun st => option_map percentage (progress st))
        (states (stdout_loop total err completed lines) s)
    = map (fun i => match compute_percentage (completed + Z.of_nat i) total with
                    | Ok n => Some n
                    | Err _ => None
                    end)
          (seq 1 (List.length (filter is_item_line lines))).
Proof.
  induction lines as [|line rest IH]; intros completed s p Hp Hc Ht Hlen;
    cbn [stdout_loop].
  - destruct err; reflexivity.
  - cbn [List.length] in Hlen. cbn [filter].
    change (is_item_line line) with (qualifies (strip line)).
    destruct (qualifies (strip line)) eqn:Hq.
    + destruct (progress_block_percentage (strip line) (completed + 1) total
                  s p Hp) as [p1 [n [Hn [Hblock Hpct]]]]; [lia | lia |].
      cbn [bind locked states]. rewrite Hblock. cbn [fst snd bind].
      cbn [List.length seq map]. cbn [set_progress progress option_map].
      change (Z.of_nat 1) with 1. rewrite Hn, Hpct. f_equal.
      rewrite (IH (completed + 1) (set_progress (Some p1) s) p1 eq_refl)
        by lia.
      rewrite <- (seq_shift _ 1), map_map.
      apply map_ext. intros i.
      replace (completed + 1 + Z.of_nat i) with (completed + Z.of_nat (S i))
        by lia.
      reflexivity.
    + apply (IH completed s p Hp Hc Ht). lia.
Qed.

(** Once rsync has started, a run alone writes the state in its first
    block, in the blocks of the loop, and in one last block. *)
Lemma states_after_launch w s process :
  source_ready w -> destination_writable w ->
  lt_half (free_gb (get_disk_space w)) = false ->
  popen w = Ok process ->
  exists fin,
    states (run_sync_background w) s
    = start_block (count_source_files (source_rglob w)) (now_first w) s
      :: states (stdout_loop (count_source_files (source_rglob w))
                             (stdout_error process) 0 (stdout_lines process))
                (start_block (count_source_files (source_rglob w))
                             (now_first w) s)
      ++ [fin]
    /\ progress fin = None.
Proof.
  intros [Hrsync [Hexists Hlisted]] [Hmkdir [Htouch Hunlink]] Hdisk Hpopen.
  unfold run_sync_background. rewrite states_try_except.
  set (s1 := start_block (count_source_files (source_rglob w))
                         (now_first w) s).
  set (loop := stdout_loop (count_source_files (source_rglob w))
                           (stdout_error process) 0 (stdout_lines process)).
  assert (H : (outcome (job_steps w) s = Ok tt
               /\ exists fin, states (job_steps w) s
                              = s1 :: states loop s1 ++ [fin]
                              /\ progress fin = None)
              \/ (exists e, outcome (job_steps w) s = Err e
                            /\ states (job_steps w) s
                               = s1 :: states loop s1)).
  { unfold job_steps. rewrite Hrsync, Hexists.
    destruct (source_iterdir w) as [[|x xs]|e];
      [contradiction Hlisted; reflexivity | |].
    all: rewrite Hmkdir, Htouch, Hunlink, Hdisk, Hpopen.
    all: cbn [bind locked call try_except negb any_path outcome states
                fst snd].
    all: fold s1; fold loop.
    all: rewrite outcome_bind, states_bind.
    all: destruct (outcome loop s1) as [[]|e1];
      [|right; exists e1; rewrite app_nil_r; split; reflexivity].
    all: destruct (stderr_read process) as [stderr|e2];
      cbn [call bind outcome states];
      [|right; exists e2; rewrite app_nil_r; split; reflexivity].
    all: destruct (classify_exit (returncode process) stderr [])
           as [[st msg] ws].
    all: cbn [locked outcome states fst snd].
    all: left; split; [reflexivity|]; eexists; split; reflexivity. }
  destruct H as [[Hout [fin [Hst Hfin]]]|[e [Hout Hst]]]; rewrite Hout, Hst.
  - exists fin. rewrite app_nil_r. split; [reflexivity | exact Hfin].
  - cbn [locked states fst snd]. eexists.
    split; [rewrite <- app_comm_cons; reflexivity | reflexivity].
Qed.

Lemma run_percentages w s process :
  source_ready w -> destination_writable w ->
  lt_half (free_gb (get_disk_space w)) = false ->
  popen w = Ok process ->
  0 < count_source_files (source_rglob w) < 2 ^ 63 ->
  Z.of_nat (List.length (stdout_lines process)) < 2 ^ 63 ->
  map (fun st => option_map percentage (progress st))
      (states (run_sync_background w) s)
  = Some 0
    :: map (fun i =>
              match compute_percentage
                      (Z.of_nat i) (count_source_files (source_rglob w)) with
              | Ok n => Some n
              | Err _ => None
              end)
           (seq 1 (List.length (filter is_item_line (stdout_lines process))))
    ++ [None].
Proof.
  intros Hready Hwrite Hdisk Hpopen Htotal Hlines.
  destruct (states_after_launch w s process Hready Hwrite Hdisk Hpopen)
    as [fin [Hst Hfin]].
  rewrite Hst. cbn [map]. rewrite map_app. cbn [map]. rewrite Hfin.
  cbn [start_block progress option_map percentage]. f_equal. f_equal.
  rewrite (stdout_loop_percentages
             (count_source_files (source_rglob w)) (stdout_error process)
             (stdout_lines process) 0
             (start_block (count_source_files (source_rglob w))
                          (now_first w) s)
             (mkProgress (lit "running") (now_first w) None 0
                         (count_source_files (source_rglob w)) 0)
             eq_refl); try lia.
  reflexivity.
Qed.

(** C7, as the code has it.  In every state the server can get to, with
    job bodies overlapping or not, a present progress has its percentage
    between 0 and 99.  The progress block of a job that counted
    [total > 0] files writes [min(99, round(completed / total * 100))] in
    binary64 arithmetic ([compute_percentage]; it leaves the percentage as
    it was when that expression raises, which it does not for counts below
    2^63).  In a job body that runs with no other job body in between, the
    loop stores that value for the count of item lines read so far after
    each item line, so a whole run shows 0, then these values, then no
    progress; the instances show the clamp at 99 when as many or more items
    were reported than counted.  Such a run of a job that counted no file
    leaves the percentage at 0 in every state. *)
Theorem C7_percentage_between_0_and_99 :
  (forall c, reachable c -> percentage_bounded (shared c))
  /\ (forall ls completed total s p,
        progress s = Some p -> 0 < total ->
        option_map percentage
          (progress (fst (progress_block ls completed total s)))
        = Some match int_true_div completed total with
               | Ok q => match py_round (float_mul_pos q 100) with
                         | Ok r => Z.min 99 r
                         | Err _ => percentage p
                         end
               | Err _ => percentage p
               end)
  /\ (forall completed total,
        0 <= completed < 2 ^ 63 -> 0 < total < 2 ^ 63 ->
        exists n, compute_percentage completed total = Ok n /\ 0 <= n <= 99)
  /\ (forall total err lines completed s p,
        progress s = Some p ->
        0 <= completed -> 0 < total < 2 ^ 63 ->
        completed + Z.of_nat (List.length lines) < 2 ^ 63 ->
        map (fun st => option_map percentage (progress st))
            (states (stdout_loop total err completed lines) s)
        = map (fun i =>
                 match compute_percentage (completed + Z.of_nat i) total with
                 | Ok n => Some n
                 | Err _ => None
                 end)
              (seq 1 (List.length (filter is_item_line lines))))
  /\ (forall w s process,
        source_ready w -> destination_writable w ->
        lt_half (free_gb (get_disk_space w)) = false ->
        popen w = Ok process ->
        0 < count_source_files (source_rglob w) < 2 ^ 63 ->
        Z.of_nat (List.length (stdout_lines process)) < 2 ^ 63 ->
        map (fun st => option_map percentage (progress st))
            (states (run_sync_background w) s)
        = Some 0
          :: map (fun i =>
                    match compute_percentage
                            (Z.of_nat i)
                            (count_source_files (source_rglob w)) with
                    | Ok n => Some n
                    | Err _ => None
                    end)
                 (seq 1 (List.length
                           (filter is_item_line (stdout_lines process))))
          ++ [None])
  /\ (forall w s,
        count_source_files (source_rglob w) = 0 ->
        Forall percentage_zero (states (run_sync_background w) s))
  /\ compute_percentage 1 200 = Ok 0
  /\ compute_percentage 115 200 = Ok 57
  /\ compute_percentage 3 3 = Ok 99
  /\ compute_percentage 5 3 = Ok 99
  /\ compute_percentage 1000 1 = Ok 99.
Proof.
  split.
  { intros c Hc.
    apply (reachable_invariant percentage_bounded); [| | | exact Hc].
    - intros p E. discriminate E.
    - exact percentage_bounded_body.
    - intros w. apply read_only_preserves, read_only_sync_folders. }
  split.
  { intros ls completed total s p Hp Ht.
    unfold progress_block, compute_percentage. rewrite Hp.
    replace (total >? 0) with true by (symmetry; apply Z.gtb_lt; lia).
    destruct (int_true_div completed total) as [q|e]; [|reflexivity].
    destruct (py_round (float_mul_pos q 100)); reflexivity. }
  split; [exact compute_percentage_total|].
  split.
  { intros total err lines completed s p Hp Hc Ht Hlen.
    exact (stdout_loop_percentages total err lines completed s p Hp Hc Ht
             Hlen). }
  split; [exact run_percentages|].
  split.
  { intros w s Hz.
    apply states_after_first_block.
    - apply percentage_zero_body, Hz.
    - intros p E. injection E as <-. reflexivity. }
  repeat split; vm_compute; reflexivity.
Qed.

Lemma C7_percentage_between_0_and_99_witness :
  percentage_bounded (shared (play overlap_schedule))
  /\ option_map percentage
       (progress (fst (progress_block (lit "a.txt") 1 3
                         (shared running_config))))
     = Some 33
  /\ (exists n, compute_percentage 7 5 = Ok n /\ 0 <= n <= 99)
  /\ map (fun st => option_map percentage (progress st))
         (states (stdout_loop 3 None 0
                    [lit "a.txt" ++ nl; lit "d/" ++ nl; lit "b.txt" ++ nl])
                 running_state)
     = [Some 33; Some 67]
  /\ map (fun st => option_map percentage (progress st))
         (states (run_sync_background healthy_world) sync_state)
     = [Some 0; Some 99; Some 99; None]
  /\ Forall percentage_zero
       (states (run_sync_background no_file_world) sync_state).
Proof.
  destruct C7_percentage_between_0_and_99
    as [Hreach [Hblock [Htotal [Hloop [Hrun [Hzero _]]]]]].
  split; [exact (Hreach _ (play_reachable overlap_schedule))|].
  split.
  { refine (eq_trans (Hblock (lit "a.txt") 1 3 (shared running_config) _
                             eq_refl _) _).
    - reflexivity.
    - vm_compute. reflexivity. }
  split; [apply Htotal; split; reflexivity || discriminate|].
  split.
  { refine (eq_trans (Hloop 3 None
                        [lit "a.txt" ++ nl; lit "d/" ++ nl; lit "b.txt" ++ nl]
                        0 running_state
                        (mkProgress (lit "running") (now_first healthy_world)
                                    None 0 1 0)
                        eq_refl _ _ _) _).
    - discriminate.
    - split; reflexivity.
    - reflexivity.
    - vm_compute. reflexivity. }
  split.
  { refine (eq_trans (Hrun healthy_world sync_state one_file_process
                        _ _ eq_refl eq_refl _ _) _).
    - split; [reflexivity|]. split; [reflexivity | discriminate].
    - split; [reflexivity|]. split; reflexivity.
    - split; reflexivity.
    - reflexivity.
    - vm_compute. reflexivity. }
  apply Hzero. reflexivity.
Defined.

(** Two job bodies overlap: the second counted no file and its first block
    put its progress into the shared state; the first, which counted one
    file, then reads an item line and writes 99 into that progress.  The
    second body is still running. *)
Lemma C7_zero_total_with_percentage_99 :
  reachable (play overlap_schedule)
  /\ count_source_files (source_rglob no_file_world) = 0
  /\ is_running (shared (play overlap_schedule)) = true
  /\ option_map total_files (progress (shared (play overlap_schedule)))
     = Some 0
  /\ option_map percentage (progress (shared (play overlap_schedule)))
     = Some 99
  /\ option_map percentage (progress (shared (play overlap_schedule)))
     <> Some 0
  /\ map body_unfinished (threads (play overlap_schedule))
     = [false; true; false; true].
Proof.
  split; [apply play_reachable|].
  split; [reflexivity|].
  split; [vm_compute; reflexivity|].
  split; [vm_compute; reflexivity|].
  split; [vm_compute; reflexivity|].
  split; [vm_compute; discriminate | vm_compute; reflexivity].
Qed.

(** ** The window of the start guard *)

(** X12. The start operation does not mark the job as running, so a
    second start that comes before the first job body has run its first
    block is accepted as well, and two job bodies are handed over.  For a
    job body that runs with no block of another job body in between, a
    start is refused with HTTP 409 from its first block until its last,
    after which a start is answered as on a server that never ran a job.
    With two job bodies overlapping the refusal does not last as long as a
    job runs: the server gets to a state where the first body has ended,
    the second still has blocks to run, the state is idle, and a start is
    accepted and hands over a third job body. *)
Theorem X12_start_guard_window :
  (forall w1 w2 s,
      (forall r1,
          outcome (sync_folders w1) s = Ok r1 ->
          check_rsync_available w2 = true -> source_exists w2 = Ok true ->
          exists r2,
            outcome (sync_folders w2) (final_state (sync_folders w1) s) = Ok r2
            /\ (scheduled (sync_folders w1) s
                + scheduled (sync_folders w2)
                            (final_state (sync_folders w1) s)
                = 2)%nat)
      /\ (exists pre fin,
             states (run_sync_background w1) s = pre ++ [fin]
             /\ pre <> []
             /\ Forall (fun st =>
                          outcome (sync_folders w2) st
                          = Err (mkExn (HTTPException 409)
                                       (lit "Sync already in progress")))
                       pre
             /\ final_state (run_sync_background w1) s = fin
             /\ outcome (sync_folders w2) fin
                = outcome (sync_folders w2) sync_state))
  /\ (reachable (play first_body_done_schedule)
      /\ map body_unfinished (threads (play first_body_done_schedule))
         = [false; false; false; true]
      /\ idle (shared (play first_body_done_schedule))
      /\ (exists r,
             outcome (sync_folders healthy_world)
                     (shared (play first_body_done_schedule)) = Ok r)
      /\ scheduled (sync_folders healthy_world)
                   (shared (play first_body_done_schedule)) = 1%nat).
Proof.
  split.
  - intros w1 w2 s. split.
    + intros r1 Hr1 Hrsync Hexists.
      destruct (sync_folders_accepted w1 s r1 Hr1) as [Hidle Hsched].
      rewrite (read_only_final_state _ s (read_only_sync_folders w1)).
      destruct (sync_folders_accepts w2 s Hidle Hrsync Hexists)
        as [r2 [Hr2 Hsched2]].
      exists r2. split; [exact Hr2|]. rewrite Hsched, Hsched2. reflexivity.
    + destruct (run_sync_background_shape w1 s)
        as [pre [fin [Hst [Hne [Hpre [Hidle [Hlast Hfin]]]]]]].
      exists pre, fin. split; [exact Hst|]. split; [exact Hne|].
      split; [|split; [exact Hfin|]].
      * apply Forall_forall. intros st Hin.
        rewrite Forall_forall in Hpre.
        destruct (Hpre st Hin) as [Hrun _].
        exact (proj1 (sync_folders_running w2 st Hrun)).
      * destruct Hidle as [Hidle _]. unfold sync_folders.
        cbn [bind locked outcome fst snd is_running sync_state].
        rewrite Hidle. cbn [bind outcome].
        destruct (check_rsync_available w2); cbn [negb bind outcome];
          [|reflexivity].
        destruct (source_exists w2) as [[|]|e]; reflexivity.
  - split; [apply play_reachable|].
    split; [vm_compute; reflexivity|].
    assert (Hidle : idle (shared (play first_body_done_schedule)))
      by (split; vm_compute; reflexivity).
    split; [exact Hidle|].
    destruct (sync_folders_accepts healthy_world
                (shared (play first_body_done_schedule))
                (proj1 Hidle) eq_refl eq_refl) as [r [Hr Hsched]].
    split; [exists r; exact Hr | exact Hsched].
Qed.

Lemma X12_start_guard_window_witness :
  exists r2,
    outcome (sync_folders healthy_world)
            (final_state (sync_folders healthy_world) sync_state) = Ok r2
    /\ (scheduled (sync_folders healthy_world) sync_state
        + scheduled (sync_folders healthy_world)
                    (final_state (sync_folders healthy_world) sync_state)
        = 2)%nat.
Proof.
  exact (proj1 (proj1 X12_start_guard_window healthy_world healthy_world
                  sync_state)
           _ eq_refl eq_refl eq_refl).
Defined.
